(** * The Frugal request context ([lib/go/context.go])

  A shallow embedding of [FContextImpl], the global op-id counter and the
  [strconv] routines the context relies on, followed by the properties of
  the context that the specification states. *)

From Stdlib Require Import ZArith NArith Ascii String Lia.
From stdpp Require Import base option list gmap strings fin_maps.

Local Open Scope string_scope.

(** ** Machine integers *)

Module Int64.

Definition modulus : Z := 2 ^ 64.
Definition minInt64 : Z := - 2 ^ 63.
Definition maxInt64 : Z := 2 ^ 63 - 1.
Definition maxUint64 : N := 2 ^ 64 - 1.

(** Arithmetic on [uint64] is taken modulo [2^64]. *)
Definition wrapU (n : N) : N := (n mod 2 ^ 64)%N.

(** Arithmetic on [int64] wraps around in two's complement. *)
Definition wrapS (z : Z) : Z := ((z + 2 ^ 63) mod 2 ^ 64 - 2 ^ 63)%Z.

(** The conversion [uint64(i)] of a signed value. *)
Definition toUint64 (z : Z) : N := Z.to_N (z mod 2 ^ 64).

(** The conversion [int64(u)] of an unsigned value. *)
Definition toInt64 (u : N) : Z := wrapS (Z.of_N u).

Definition inInt64 (z : Z) : Prop := (minInt64 <= z <= maxInt64)%Z.
Definition inUint64 (n : N) : Prop := (n <= maxUint64)%N.

End Int64.

(** ** The [strconv] routines used by the context

  [strconv] belongs to the Go standard library.  The context calls it only
  with base 10 and bit size 64, and the definitions below are the library
  routines at those arguments. *)

Module strconv.

Import Int64.

Inductive NumError := ErrSyntax | ErrRange.

(** [lower(c)] is [c | ('x' - 'X')]. *)
Definition lower (c : N) : N := N.lor c 32.

(** The digit value the parsing loop assigns to the byte [c]. *)
Definition digitValue (c : N) : option N :=
  if ((48 <=? c) && (c <=? 57))%N then Some (c - 48)%N
  else if ((97 <=? lower c) && (lower c <=? 122))%N then Some (lower c - 97 + 10)%N
  else None.

(** [cutoff] is the smallest number such that [cutoff * 10 > maxUint64]. *)
Definition cutoff : N := (maxUint64 / 10 + 1)%N.

(** The loop of [ParseUint] over the bytes of the string, [n] being the
    value accumulated so far. *)
Fixpoint parseLoop (n : N) (s : string) : N * option NumError :=
  match s with
  | EmptyString => (n, None)
  | String c s' =>
      match digitValue (N_of_ascii c) with
      | None => (0%N, Some ErrSyntax)
      | Some d =>
          if (10 <=? d)%N then (0%N, Some ErrSyntax)
          else if (cutoff <=? n)%N then (maxUint64, Some ErrRange)
          else
            let n10 := wrapU (n * 10) in
            let n1 := wrapU (n10 + d) in
            if ((n1 <? n10) || (maxUint64 <? n1))%N
            then (maxUint64, Some ErrRange)
            else parseLoop n1 s'
      end
  end.

Definition ParseUint (s : string) : N * option NumError :=
  match s with
  | EmptyString => (0%N, Some ErrSyntax)
  | _ => parseLoop 0 s
  end.

Definition ParseInt (s : string) : Z * option NumError :=
  match s with
  | EmptyString => (0%Z, Some ErrSyntax)
  | String c s' =>
      let '(neg, s1) :=
        if Ascii.eqb c "+" then (false, s')
        else if Ascii.eqb c "-" then (true, s')
        else (false, s) in
      let '(un, err) := ParseUint s1 in
      match err with
      | Some ErrSyntax => (0%Z, err)
      | _ =>
          let cut : N := (2 ^ 63)%N in
          if negb neg && (cut <=? un)%N then (maxInt64, Some ErrRange)
          else if neg && (cut <? un)%N then (minInt64, Some ErrRange)
          else
            let n := toInt64 un in
            (if neg then wrapS (- n) else n, None)
      end
  end.

Definition digitChar (d : N) : ascii := ascii_of_N (48 + d).

(** The digit loop of [formatBits]: digits are written from the least
    significant one backwards into a buffer of 65 bytes; [fuel] is the room
    left in the buffer and [acc] the part already written. *)
Fixpoint formatLoop (fuel : nat) (u : N) (acc : string) : string :=
  match fuel with
  | O => acc
  | S fuel' =>
      if (u <? 10)%N then String (digitChar u) acc
      else formatLoop fuel' (u / 10)%N (String (digitChar (u mod 10)%N) acc)
  end.

Definition formatBits (u : N) (neg : bool) : string :=
  let u := if neg then wrapU (2 ^ 64 - u) else u in
  let s := formatLoop 65 u "" in
  if neg then String "-" s else s.

Definition FormatUint (i : N) : string := formatBits i false.

Definition FormatInt (i : Z) : string := formatBits (toUint64 i) (i <? 0)%Z.

(** *** What a decimal numeral denotes

    These definitions do not come from the code: they say which strings
    are decimal numerals and which number each denotes, so that the parsing
    routines can be compared with them. *)

Definition isDigit (c : ascii) : bool :=
  ((48 <=? N_of_ascii c) && (N_of_ascii c <=? 57))%N.

Fixpoint decimalFrom (n : N) (s : string) : option N :=
  match s with
  | EmptyString => Some n
  | String c s' =>
      if isDigit c then decimalFrom (10 * n + (N_of_ascii c - 48))%N s' else None
  end.

(** The natural number denoted by a non-empty string of decimal digits. *)
Definition decimalNat (s : string) : option N :=
  match s with
  | EmptyString => None
  | _ => decimalFrom 0 s
  end.

(** The integer denoted by a decimal numeral with an optional sign. *)
Definition decimalInt (s : string) : option Z :=
  match s with
  | EmptyString => None
  | String c s' =>
      if Ascii.eqb c "+" then Z.of_N <$> decimalNat s'
      else if Ascii.eqb c "-" then (λ n, - Z.of_N n)%Z <$> decimalNat s'
      else Z.of_N <$> decimalNat s
  end.

End strconv.

(** ** Durations

    A [time.Duration] is an [int64] count of nanoseconds. *)

Module time.

Definition Millisecond : Z := 1000000.
Definition Second : Z := 1000 * Millisecond.

End time.

(** ** The context and the store it lives in *)

Definition cidHeader : string := "_cid".
Definition opIDHeader : string := "_opid".
Definition timeoutHeader : string := "_timeout".
Definition defaultTimeout : Z := 5 * time.Second.

(** A Go map is a reference to a mutable table.  A reference is the index of
    the table in the store; [make] and map literals append a table to the
    store.  The three fields of an [FContextImpl] are assigned when the context
    is built and never again, so a context is the record of its three
    references.  Every method body runs under the lock of the context and is
    one step of the model. *)
Record FContextImpl := mkFContextImpl {
  requestHeaders : nat;
  responseHeaders : nat;
  ephemeralProperties : nat
}.

(** The state of the process: the global op-id counter, the tables of type
    [map[string]string], the tables of type [map[interface{}]interface{}] and
    the state of the correlation-id generator.  [key] stands for the values of
    type [interface{}] that can be used as map keys and that [==] finds equal
    to themselves; a floating-point NaN can be used as a key but is not equal
    to itself, and is not a value of [key].  [val] stands for all values of
    type [interface{}]. *)
Record World (key val Rand : Type) `{Countable key} := mkWorld {
  nextOpID : N;
  headerMaps : list (gmap string string);
  propertyMaps : list (gmap key val);
  rand : Rand
}.

Arguments mkWorld {key val Rand _ _} _ _ _ _.
Arguments nextOpID {key val Rand _ _} _.
Arguments headerMaps {key val Rand _ _} _.
Arguments propertyMaps {key val Rand _ _} _.
Arguments rand {key val Rand _ _} _.

(** What the maps of a context hold at some moment. *)
Record Snapshot (key val : Type) `{Countable key} := mkSnapshot {
  snapRequest : gmap string string;
  snapResponse : gmap string string;
  snapEphemeral : gmap key val
}.

Arguments mkSnapshot {key val _ _} _ _ _.
Arguments snapRequest {key val _ _} _.
Arguments snapResponse {key val _ _} _.
Arguments snapEphemeral {key val _ _} _.

(** The calls that change a context. *)
Inductive Mutation (key val : Type) :=
| MutAddRequestHeader (name value : string)
| MutAddResponseHeader (name value : string)
| MutSetTimeout (timeout : Z)
| MutAddEphemeralProperty (k : key) (v : val).

Arguments MutAddRequestHeader {key val} _ _.
Arguments MutAddResponseHeader {key val} _ _.
Arguments MutSetTimeout {key val} _.
Arguments MutAddEphemeralProperty {key val} _ _.

(** The calls a client makes on the contexts of a process; a context is
    named by its position among the contexts created so far. *)
Inductive Call (key val : Type) :=
| CallNewFContext (correlationID : string)
| CallClone (i : nat)
| CallMutate (i : nat) (m : Mutation key val)
| CallRequestHeaders (i : nat)
| CallResponseHeaders (i : nat)
| CallEphemeralProperties (i : nat).

Arguments CallNewFContext {key val} _.
Arguments CallClone {key val} _.
Arguments CallMutate {key val} _ _.
Arguments CallRequestHeaders {key val} _.
Arguments CallResponseHeaders {key val} _.
Arguments CallEphemeralProperties {key val} _.

Record Process (key val Rand : Type) `{Countable key} := mkProcess {
  world : World key val Rand;
  live : list FContextImpl
}.

Arguments mkProcess {key val Rand _ _} _ _.
Arguments world {key val Rand _ _} _.
Arguments live {key val Rand _ _} _.

Section Model.

Context {key : Type} `{Countable key} {val : Type} {Rand : Type}.

(** [generateCorrelationID] is a package variable holding a function; by
    default it calls [nuid.Next] of the NUID library. *)
Variable generateCorrelationID : Rand → string * Rand.

Local Abbreviation world_t := (World key val Rand).

Definition withNextOpID (n : N) (σ : world_t) : world_t :=
  mkWorld n (headerMaps σ) (propertyMaps σ) (rand σ).

Definition withHeaderMaps (hs : list (gmap string string)) (σ : world_t) : world_t :=
  mkWorld (nextOpID σ) hs (propertyMaps σ) (rand σ).

Definition withPropertyMaps (ps : list (gmap key val)) (σ : world_t) : world_t :=
  mkWorld (nextOpID σ) (headerMaps σ) ps (rand σ).

Definition withRand (r : Rand) (σ : world_t) : world_t :=
  mkWorld (nextOpID σ) (headerMaps σ) (propertyMaps σ) r.

(** *** Map primitives *)

(** The table behind a reference. *)
Definition headerMap (σ : world_t) (r : nat) : gmap string string :=
  default ∅ (headerMaps σ !! r).

Definition propertyMap (σ : world_t) (r : nat) : gmap key val :=
  default ∅ (propertyMaps σ !! r).

(** [make(map[string]string)] and map literals. *)
Definition makeHeaderMap (m : gmap string string) (σ : world_t) : nat * world_t :=
  (length (headerMaps σ), withHeaderMaps (headerMaps σ ++ [m]) σ).

Definition makePropertyMap (m : gmap key val) (σ : world_t) : nat * world_t :=
  (length (propertyMaps σ), withPropertyMaps (propertyMaps σ ++ [m]) σ).

(** [m[k] = v]. *)
Definition storeHeader (r : nat) (k v : string) (σ : world_t) : world_t :=
  withHeaderMaps (alter (insert k v) r (headerMaps σ)) σ.

Definition storeProperty (r : nat) (k : key) (v : val) (σ : world_t) : world_t :=
  withPropertyMaps (alter (insert k v) r (propertyMaps σ)) σ.

(** [delete(m, k)]. *)
Definition deleteHeader (r : nat) (k : string) (σ : world_t) : world_t :=
  withHeaderMaps (alter (delete k) r (headerMaps σ)) σ.

Definition deleteProperty (r : nat) (k : key) (σ : world_t) : world_t :=
  withPropertyMaps (alter (delete k) r (propertyMaps σ)) σ.

(** [for k, v := range src { dst[k] = v }] on an empty [dst]. *)
Definition copyEntries {K V : Type} `{Countable K} (src : gmap K V) : gmap K V :=
  map_fold (λ k v dst, <[k:=v]> dst) ∅ src.

(** *** The op-id generator *)

Definition getNextOpID (σ : world_t) : string * world_t :=
  let n := Int64.wrapU (nextOpID σ + 1) in
  (strconv.FormatUint n, withNextOpID n σ).

(** *** Construction *)

Definition NewFContext (correlationID : string) (σ : world_t) : FContextImpl * world_t :=
  let '(correlationID, σ) :=
    if decide (correlationID = "")
    then let '(s, r) := generateCorrelationID (rand σ) in (s, withRand r σ)
    else (correlationID, σ) in
  let '(opid, σ) := getNextOpID σ in
  let '(rq, σ) :=
    makeHeaderMap
      (<[timeoutHeader := strconv.FormatInt (defaultTimeout `quot` time.Millisecond)]>
         (<[opIDHeader := opid]> (<[cidHeader := correlationID]> ∅))) σ in
  let '(rs, σ) := makeHeaderMap ∅ σ in
  let '(ep, σ) := makePropertyMap ∅ σ in
  (mkFContextImpl rq rs ep, σ).

(** *** Methods of [*FContextImpl]

    The methods that return their receiver for chaining are modelled by the
    store they leave. *)

Definition CorrelationID (c : FContextImpl) (σ : world_t) : string :=
  default "" (headerMap σ (requestHeaders c) !! cidHeader).

Definition AddRequestHeader (c : FContextImpl) (name value : string) (σ : world_t) : world_t :=
  storeHeader (requestHeaders c) name value σ.

Definition RequestHeader (c : FContextImpl) (name : string) (σ : world_t) : string * bool :=
  match headerMap σ (requestHeaders c) !! name with
  | Some v => (v, true)
  | None => ("", false)
  end.

Definition RequestHeaders (c : FContextImpl) (σ : world_t) : nat * world_t :=
  makeHeaderMap (copyEntries (headerMap σ (requestHeaders c))) σ.

Definition AddResponseHeader (c : FContextImpl) (name value : string) (σ : world_t) : world_t :=
  storeHeader (responseHeaders c) name value σ.

Definition ResponseHeader (c : FContextImpl) (name : string) (σ : world_t) : string * bool :=
  match headerMap σ (responseHeaders c) !! name with
  | Some v => (v, true)
  | None => ("", false)
  end.

Definition ResponseHeaders (c : FContextImpl) (σ : world_t) : nat * world_t :=
  makeHeaderMap (copyEntries (headerMap σ (responseHeaders c))) σ.

Definition SetTimeout (c : FContextImpl) (timeout : Z) (σ : world_t) : world_t :=
  storeHeader (requestHeaders c) timeoutHeader
    (strconv.FormatInt (timeout `quot` time.Millisecond)) σ.

Definition Timeout (c : FContextImpl) (σ : world_t) : Z :=
  let timeoutMillisStr := default "" (headerMap σ (requestHeaders c) !! timeoutHeader) in
  match strconv.ParseInt timeoutMillisStr with
  | (_, Some _) => defaultTimeout
  | (timeoutMillis, None) => Int64.wrapS (time.Millisecond * timeoutMillis)
  end.

Definition EphemeralProperty (c : FContextImpl) (k : key) (σ : world_t) : option val :=
  propertyMap σ (ephemeralProperties c) !! k.

Definition EphemeralProperties (c : FContextImpl) (σ : world_t) : nat * world_t :=
  makePropertyMap (copyEntries (propertyMap σ (ephemeralProperties c))) σ.

Definition AddEphemeralProperty (c : FContextImpl) (k : key) (v : val) (σ : world_t) : world_t :=
  storeProperty (ephemeralProperties c) k v σ.

Definition FContextImpl_Clone (c : FContextImpl) (σ : world_t) : FContextImpl * world_t :=
  let '(rq, σ) := RequestHeaders c σ in
  let '(rs, σ) := ResponseHeaders c σ in
  let '(ep, σ) := EphemeralProperties c σ in
  let cloned := mkFContextImpl rq rs ep in
  let '(opid, σ) := getNextOpID σ in
  (cloned, storeHeader (requestHeaders cloned) opIDHeader opid σ).

(** The package function [Clone] takes an [FContext].  An [*FContextImpl] has
    the four methods of [FContextWithEphemeralProperties], so the type
    assertion succeeds and the call is handed to the method.  The rest of the
    function body serves other implementations of [FContext]; this file has
    none. *)
Definition Clone (ctx : FContextImpl) (σ : world_t) : FContextImpl * world_t :=
  FContextImpl_Clone ctx σ.

(** *** Helpers of the transport *)

Definition setRequestOpID (ctx : FContextImpl) (id : N) (σ : world_t) : world_t :=
  let opIDStr := strconv.FormatUint id in
  AddRequestHeader ctx opIDHeader opIDStr σ.

(** The error of [getOpID] is the message given to [fmt.Errorf]. *)
Definition getOpID (ctx : FContextImpl) (σ : world_t) : N * option string :=
  match RequestHeader ctx opIDHeader σ with
  | (_, false) =>
      (0%N, Some ("FContext does not have the required " +:+ opIDHeader +:+ " request header"))
  | (opIDStr, true) =>
      match strconv.ParseUint opIDStr with
      | (_, Some _) =>
          (0%N, Some ("FContext has an opid that is not a non-negative integer: " +:+ opIDStr))
      | (id, None) => (id, None)
      end
  end.

Definition setResponseOpID (ctx : FContextImpl) (id : string) (σ : world_t) : world_t :=
  AddResponseHeader ctx opIDHeader id σ.

(** *** Observing and driving contexts *)

Definition observe (σ : world_t) (c : FContextImpl) : Snapshot key val :=
  mkSnapshot (headerMap σ (requestHeaders c))
             (headerMap σ (responseHeaders c))
             (propertyMap σ (ephemeralProperties c)).

(** The maps of a context have been made in the store. *)
Definition ctxValid (σ : world_t) (c : FContextImpl) : Prop :=
  requestHeaders c < length (headerMaps σ) ∧
  responseHeaders c < length (headerMaps σ) ∧
  ephemeralProperties c < length (propertyMaps σ).

Definition mutate (c : FContextImpl) (m : Mutation key val) (σ : world_t) : world_t :=
  match m with
  | MutAddRequestHeader name value => AddRequestHeader c name value σ
  | MutAddResponseHeader name value => AddResponseHeader c name value σ
  | MutSetTimeout timeout => SetTimeout c timeout σ
  | MutAddEphemeralProperty k v => AddEphemeralProperty c k v σ
  end.

Local Abbreviation process_t := (Process key val Rand).

(** The process before any call: the counter is 0 and no map exists. *)
Definition initWorld (r : Rand) : world_t := mkWorld 0 [] [] r.

Definition initProcess (r : Rand) : process_t := mkProcess (initWorld r) [].

(** A call on a position that names no context is skipped.  The maps that
    the three copying accessors return go to the caller. *)
Definition perform (p : process_t) (call : Call key val) : process_t :=
  match call with
  | CallNewFContext correlationID =>
      let '(c, σ) := NewFContext correlationID (world p) in
      mkProcess σ (live p ++ [c])
  | CallClone i =>
      match live p !! i with
      | Some a => let '(c, σ) := Clone a (world p) in mkProcess σ (live p ++ [c])
      | None => p
      end
  | CallMutate i m =>
      match live p !! i with
      | Some a => mkProcess (mutate a m (world p)) (live p)
      | None => p
      end
  | CallRequestHeaders i =>
      match live p !! i with
      | Some a => mkProcess (RequestHeaders a (world p)).2 (live p)
      | None => p
      end
  | CallResponseHeaders i =>
      match live p !! i with
      | Some a => mkProcess (ResponseHeaders a (world p)).2 (live p)
      | None => p
      end
  | CallEphemeralProperties i =>
      match live p !! i with
      | Some a => mkProcess (EphemeralProperties a (world p)).2 (live p)
      | None => p
      end
  end.

Definition run (calls : list (Call key val)) (p : process_t) : process_t :=
  foldl perform p calls.

(** [n] draws from the generator, one after the other. *)
Definition drawMany (n : N) (σ : world_t) : world_t :=
  N.iter n (λ σ, (getNextOpID σ).2) σ.

(** What the [k]-th draw of a process returns, counting from 1. *)
Definition nthDraw (r : Rand) (k : N) : string :=
  (getNextOpID (drawMany (k - 1) (initWorld r))).1.

(** The [_opid] request header of every context of the process. *)
Definition opIDs (p : process_t) : list (option string) :=
  (λ c, headerMap (world p) (requestHeaders c) !! opIDHeader) <$> live p.

End Model.

(** ** A concrete process, for examples *)

Module Demo.

(** A generator that hands out ["cid-0"], ["cid-1"], ... *)
Definition counterGenerate (n : nat) : string * nat :=
  ("cid-" +:+ strconv.FormatUint (N.of_nat n), S n).


Definition world0 : World string string nat := initWorld 0.

(** The process after [NewFContext("abc")]. *)
Definition ctxA : FContextImpl := (NewFContext counterGenerate "abc" world0).1.
Definition worldA : World string string nat := (NewFContext counterGenerate "abc" world0).2.

(** A client that makes four contexts and changes some of them. *)
Definition calls : list (Call string string) :=
  [ CallNewFContext "abc";
    CallClone 0;
    CallMutate 1 (MutSetTimeout (7500 * time.Millisecond));
    CallNewFContext "";
    CallMutate 0 (MutAddRequestHeader "x" "1");
    CallMutate 0 (MutAddEphemeralProperty "span" "s1");
    CallRequestHeaders 2;
    CallMutate 2 (MutAddResponseHeader "_opid" "3");
    CallClone 2 ].

Abbreviation process :=
  (run counterGenerate calls (initProcess (key := string) (val := string) 0)).

End Demo.

(** ** The claims of the specification, as it words them *)

Section Wording.

Context {key : Type} `{Countable key} {val : Type} {Rand : Type}.

(** The [_opid] request header is absent or its value is not the decimal
    numeral of a non-negative integer. *)
Definition opIDAbsentOrNotNumeral (σ : World key val Rand) (c : FContextImpl) : Prop :=
  match headerMap σ (requestHeaders c) !! opIDHeader with
  | None => True
  | Some s => strconv.decimalNat s = None
  end.

(** The [_timeout] request header is present and parses as a non-negative
    integer. *)
Definition timeoutNonNegative (σ : World key val Rand) (c : FContextImpl) : Prop :=
  ∃ s z, headerMap σ (requestHeaders c) !! timeoutHeader = Some s ∧
         strconv.ParseInt s = (z, None) ∧ (0 <= z)%Z.

(** The number of entries of a map under a given key. *)
Definition countKey (k : string) (m : gmap string string) : nat :=
  length (filter (λ kv, kv.1 = k) (map_to_list m)).

(** A call that leaves the [_timeout] request header a non-negative number:
    [SetTimeout] with a non-negative duration, and no write of the header
    through [AddRequestHeader]. *)
Definition keepsTimeout (call : Call key val) : Prop :=
  match call with
  | CallMutate _ (MutSetTimeout d) => (0 <= d <= Int64.maxInt64)%Z
  | CallMutate _ (MutAddRequestHeader name _) => name ≠ timeoutHeader
  | _ => True
  end.

(** A call that does not write the [_opid] request header through
    [AddRequestHeader]. *)
Definition keepsOpID (call : Call key val) : Prop :=
  match call with
  | CallMutate _ (MutAddRequestHeader name _) => name ≠ opIDHeader
  | _ => True
  end.

(** The contexts of a process have their maps in the store, and no map
    serves as the request headers of one and the response headers of
    another. *)
Definition procValid (p : Process key val Rand) : Prop :=
  Forall (ctxValid (world p)) (live p) ∧
  ∀ a b, a ∈ live p → b ∈ live p → requestHeaders a ≠ responseHeaders b.

End Wording.

(** ** The rest of the package: [ToContext] and [Clone] on an interface value *)

(** The [context.Context] values that [ToContext] builds: the background
    context, or a context that is cancelled when a timeout has passed. The
    cancel function returned beside it is left out. *)
Inductive goContext :=
| Background
| WithTimeout (parent : goContext) (timeout : Z).

(** A value of the interface type [FContext], by the methods the package
    function [Clone] calls on it: the two copying accessors, and the [Clone]
    method when the dynamic type also has the methods of
    [FContextWithEphemeralProperties]. *)
Record FContext (key val Rand : Type) `{Countable key} := mkFContext {
  ifaceRequestHeaders : World key val Rand → nat * World key val Rand;
  ifaceResponseHeaders : World key val Rand → nat * World key val Rand;
  ifaceClone : option (World key val Rand → FContextImpl * World key val Rand)
}.

Arguments mkFContext {key val Rand _ _} _ _ _.
Arguments ifaceRequestHeaders {key val Rand _ _} _ _.
Arguments ifaceResponseHeaders {key val Rand _ _} _ _.
Arguments ifaceClone {key val Rand _ _} _.

Section Package.

Context {key : Type} `{Countable key} {val : Type} {Rand : Type}.

Definition ToContext (fctx : FContextImpl) (σ : World key val Rand) : goContext :=
  let ctx := Background in
  let to := Timeout fctx σ in
  if (0 <? to)%Z then WithTimeout ctx to else ctx.

(** An [*FContextImpl] held in an [FContext]. *)
Definition asFContext (c : FContextImpl) : FContext key val Rand :=
  mkFContext (RequestHeaders c) (ResponseHeaders c) (Some (FContextImpl_Clone c)).

(** An [*FContextImpl] behind a value whose method set is that of [FContext]
    alone, such as a struct that embeds the interface: the methods of
    [FContext] go to the [*FContextImpl], the others are not there. *)
Definition asPlainFContext (c : FContextImpl) : FContext key val Rand :=
  mkFContext (RequestHeaders c) (ResponseHeaders c) None.

(** The package function [Clone] on an interface value, with both of its
    branches. *)
Definition CloneFContext (ctx : FContext key val Rand) (σ : World key val Rand)
  : FContextImpl * World key val Rand :=
  match ifaceClone ctx with
  | Some cloneMethod => cloneMethod σ
  | None =>
      let '(rq, σ) := ifaceRequestHeaders ctx σ in
      let '(rs, σ) := ifaceResponseHeaders ctx σ in
      let '(ep, σ) := makePropertyMap ∅ σ in
      let clone := mkFContextImpl rq rs ep in
      let '(opid, σ) := getNextOpID σ in
      (clone, storeHeader (requestHeaders clone) opIDHeader opid σ)
  end.

(** Two contexts share no map. *)
Definition ctxDisjoint (a b : FContextImpl) : Prop :=
  requestHeaders a ≠ requestHeaders b ∧ requestHeaders a ≠ responseHeaders b ∧
  responseHeaders a ≠ requestHeaders b ∧ responseHeaders a ≠ responseHeaders b ∧
  ephemeralProperties a ≠ ephemeralProperties b.

(** A call other than [AddRequestHeader] on [_cid]. *)
Definition keepsCid (m : Mutation key val) : Prop :=
  match m with
  | MutAddRequestHeader name _ => name ≠ cidHeader
  | _ => True
  end.

End Package.

(** * Properties *)

(** ** Facts on machine integers *)

Module Int64Facts.

Import Int64.

Lemma wrapU_small n : (n <= maxUint64)%N → wrapU n = n.
Proof.
  unfold wrapU, maxUint64. intros Hn. apply N.mod_small.
  change (2 ^ 64)%N with 18446744073709551616%N in *. lia.
Qed.

Lemma wrapS_small z : inInt64 z → wrapS z = z.
Proof.
  unfold inInt64, wrapS, minInt64, maxInt64. intros Hz.
  change (2 ^ 63)%Z with 9223372036854775808%Z in *.
  change (2 ^ 64)%Z with 18446744073709551616%Z.
  rewrite Z.mod_small; lia.
Qed.

Lemma toUint64_nonneg z : (0 <= z <= maxInt64)%Z → toUint64 z = Z.to_N z.
Proof.
  unfold toUint64, maxInt64. intros Hz.
  change (2 ^ 63)%Z with 9223372036854775808%Z in *.
  change (2 ^ 64)%Z with 18446744073709551616%Z.
  rewrite Z.mod_small; lia.
Qed.

Lemma toUint64_neg z :
  (minInt64 <= z < 0)%Z → toUint64 z = Z.to_N (z + 2 ^ 64).
Proof.
  unfold toUint64, minInt64. intros Hz.
  change (2 ^ 63)%Z with 9223372036854775808%Z in *.
  change (2 ^ 64)%Z with 18446744073709551616%Z.
  f_equal.
  symmetry. apply (Z.mod_unique _ _ (-1)); lia.
Qed.

End Int64Facts.

(** ** Facts on [strconv] *)

Module strconvFacts.

Import Int64 Int64Facts strconv.

Lemma digitValue_isDigit c :
  match digitValue (N_of_ascii c) with
  | Some d =>
      if (10 <=? d)%N then isDigit c = false
      else isDigit c = true ∧ d = (N_of_ascii c - 48)%N
  | None => isDigit c = false
  end.
Proof.
  unfold digitValue, isDigit.
  destruct ((48 <=? N_of_ascii c) && (N_of_ascii c <=? 57))%N eqn:Hd.
  - apply andb_true_iff in Hd as [H1 H2].
    apply N.leb_le in H1, H2.
    destruct (10 <=? N_of_ascii c - 48)%N eqn:Hge; [apply N.leb_le in Hge; lia | done].
  - destruct ((97 <=? lower (N_of_ascii c)) && (lower (N_of_ascii c) <=? 122))%N eqn:Hl; [|done].
    apply andb_true_iff in Hl as [H1 H2]. apply N.leb_le in H1, H2.
    destruct (10 <=? lower (N_of_ascii c) - 97 + 10)%N eqn:Hge; [done|].
    apply N.leb_gt in Hge. lia.
Qed.

Lemma decimalFrom_ge s : ∀ n m, decimalFrom n s = Some m → (n <= m)%N.
Proof.
  induction s as [|c s IH]; simpl; intros n m Hm.
  - injection Hm as ->. lia.
  - destruct (isDigit c); [|done]. apply IH in Hm. lia.
Qed.

(** The loop of [ParseUint] succeeds exactly on the strings of decimal digits
    whose value fits in 64 bits, and then returns that value. *)
Lemma parseLoop_decimal s : ∀ n m,
  (n <= maxUint64)%N →
  parseLoop n s = (m, None) ↔ decimalFrom n s = Some m ∧ (m <= maxUint64)%N.
Proof.
  induction s as [|c s IH]; simpl; intros n m Hn.
  - split; [intros [= ->]; done | intros [[= ->] _]; done].
  - pose proof (digitValue_isDigit c) as Hc.
    destruct (digitValue (N_of_ascii c)) as [d|]; [|rewrite Hc; split; [done | intros [? _]; done]].
    destruct (10 <=? d)%N eqn:Hd10; [rewrite Hc; split; [done | intros [? _]; done]|].
    destruct Hc as [-> Hd]. apply N.leb_gt in Hd10.
    unfold cutoff, maxUint64 in *.
    change (2 ^ 64 - 1)%N with 18446744073709551615%N in *.
    change (18446744073709551615 / 10 + 1)%N with 1844674407370955162%N.
    destruct (1844674407370955162 <=? n)%N eqn:Hcut.
    { apply N.leb_le in Hcut. split; [done|]. intros [Hm Hle].
      apply decimalFrom_ge in Hm. lia. }
    apply N.leb_gt in Hcut.
    assert (wrapU (n * 10) = (n * 10)%N) as ->.
    { apply wrapU_small. unfold maxUint64.
      change (2 ^ 64 - 1)%N with 18446744073709551615%N. lia. }
    destruct (decide (n * 10 + d <= 18446744073709551615)%N) as [Hfit|Hover].
    + assert (wrapU (n * 10 + d) = (n * 10 + d)%N) as ->.
      { apply wrapU_small. unfold maxUint64.
        change (2 ^ 64 - 1)%N with 18446744073709551615%N. lia. }
      assert ((n * 10 + d <? n * 10)%N = false) as -> by (apply N.ltb_ge; lia).
      assert ((18446744073709551615 <? n * 10 + d)%N = false) as -> by (apply N.ltb_ge; lia).
      simpl. rewrite IH by done.
      rewrite <- Hd. by replace (10 * n + d)%N with (n * 10 + d)%N by lia.
    + assert (wrapU (n * 10 + d) = (n * 10 + d - 18446744073709551616)%N) as ->.
      { unfold wrapU. change (2 ^ 64)%N with 18446744073709551616%N.
        symmetry. apply (N.mod_unique _ _ 1); lia. }
      assert ((n * 10 + d - 18446744073709551616 <? n * 10)%N = true) as ->
        by (apply N.ltb_lt; lia).
      simpl. split; [done|]. intros [Hm Hle].
      apply decimalFrom_ge in Hm. lia.
Qed.

Lemma parseLoop_range s : ∀ n m,
  parseLoop n s = (m, Some ErrRange) → m = maxUint64.
Proof.
  induction s as [|c s IH]; simpl; intros n m; [done|].
  destruct (digitValue (N_of_ascii c)) as [d|]; [|done].
  destruct (10 <=? d)%N; [done|].
  destruct (cutoff <=? n)%N; [by intros [= <-]|].
  destruct (_ || _); [by intros [= <-]|]. apply IH.
Qed.

Lemma ParseUint_decimal s m :
  ParseUint s = (m, None) ↔ decimalNat s = Some m ∧ (m <= maxUint64)%N.
Proof.
  destruct s as [|c s]; [simpl; split; [done | intros [? _]; done]|].
  unfold ParseUint, decimalNat. apply parseLoop_decimal.
  unfold maxUint64. change (2 ^ 64 - 1)%N with 18446744073709551615%N. lia.
Qed.

Lemma ParseUint_range s m : ParseUint s = (m, Some ErrRange) → m = maxUint64.
Proof. destruct s; [done|]. apply parseLoop_range. Qed.

Lemma ParseUint_cases s :
  (∃ m, ParseUint s = (m, None) ∧ decimalNat s = Some m ∧ (m <= maxUint64)%N) ∨
  (∃ m e, ParseUint s = (m, Some e) ∧ (e = ErrRange → m = maxUint64) ∧
          ∀ n, decimalNat s = Some n → (maxUint64 < n)%N).
Proof.
  destruct (ParseUint s) as [m [e|]] eqn:Hp.
  - right. exists m, e. split; [done|]. split.
    + intros ->. by apply ParseUint_range in Hp.
    + intros n Hn. destruct (decide (n <= maxUint64)%N) as [Hle|]; [|lia].
      assert (ParseUint s = (n, None)) as Hok by (apply ParseUint_decimal; done).
      congruence.
  - left. exists m. apply ParseUint_decimal in Hp as [? ?]. done.
Qed.

(** The part of [ParseInt] after the sign has been taken off. *)
Lemma ParseInt_tail (neg : bool) s1 z :
  (let '(un, err) := ParseUint s1 in
   match err with
   | Some ErrSyntax => (0%Z, err)
   | _ =>
       let cut : N := (2 ^ 63)%N in
       if negb neg && (cut <=? un)%N then (maxInt64, Some ErrRange)
       else if neg && (cut <? un)%N then (minInt64, Some ErrRange)
       else let n := toInt64 un in (if neg then wrapS (- n) else n, None)
   end) = (z, None)
  ↔ ∃ n, decimalNat s1 = Some n ∧
         z = (if neg then - Z.of_N n else Z.of_N n)%Z ∧ inInt64 z.
Proof.
  unfold inInt64, minInt64, maxInt64, toInt64, wrapS, maxUint64.
  change (2 ^ 63)%N with 9223372036854775808%N.
  change (2 ^ 63)%Z with 9223372036854775808%Z.
  change (2 ^ 64)%Z with 18446744073709551616%Z.
  destruct (ParseUint_cases s1) as [(m & -> & Hm & Hle)|(m & e & -> & Hr & Hbig)].
  - unfold maxUint64 in Hle.
    change (2 ^ 64 - 1)%N with 18446744073709551615%N in Hle.
    destruct neg; simpl.
    + destruct (9223372036854775808 <? m)%N eqn:Hc.
      * apply N.ltb_lt in Hc. split; [done|].
        intros (n & Hn & -> & Hz). rewrite Hm in Hn. injection Hn as <-. lia.
      * apply N.ltb_ge in Hc.
        assert (((- ((Z.of_N m + 9223372036854775808) `mod` 18446744073709551616
                     - 9223372036854775808) + 9223372036854775808)
                 `mod` 18446744073709551616 - 9223372036854775808)%Z
                = (- Z.of_N m)%Z) as ->.
        { destruct (decide (m = 9223372036854775808%N)) as [->|Hne]; [done|].
          rewrite (Z.mod_small (Z.of_N m + _)) by lia.
          rewrite Z.mod_small by lia. lia. }
        split.
        -- intros [= <-]. exists m. split; [done|]. split; [done|]. lia.
        -- intros (n & Hn & -> & _). rewrite Hm in Hn. by injection Hn as <-.
    + destruct (9223372036854775808 <=? m)%N eqn:Hc.
      * apply N.leb_le in Hc. split; [done|].
        intros (n & Hn & -> & Hz). rewrite Hm in Hn. injection Hn as <-. lia.
      * apply N.leb_gt in Hc.
        rewrite Z.mod_small by lia.
        split.
        -- intros [= <-]. exists m. split; [done|]. split; lia.
        -- intros (n & Hn & -> & _). rewrite Hm in Hn. injection Hn as <-.
           f_equal. lia.
  - assert (∀ n, decimalNat s1 = Some n → (18446744073709551615 < n)%N) as Hbig'.
    { intros n Hn. apply Hbig in Hn. unfold maxUint64 in Hn.
      change (2 ^ 64 - 1)%N with 18446744073709551615%N in Hn. done. }
    assert (¬ ∃ n, decimalNat s1 = Some n ∧
                   z = (if neg then - Z.of_N n else Z.of_N n)%Z ∧
                   (- 9223372036854775808 <= z <= 9223372036854775808 - 1)%Z) as Hno.
    { intros (n & Hn & -> & Hz). apply Hbig' in Hn. destruct neg; lia. }
    destruct e.
    + split; [done | intros Hx; by destruct Hno].
    + rewrite (Hr eq_refl). unfold maxUint64.
      change (2 ^ 64 - 1)%N with 18446744073709551615%N.
      destruct neg; simpl; (split; [done | intros Hx; by destruct Hno]).
Qed.

(** [ParseInt] succeeds exactly on the signed decimal numerals whose value is
    an [int64], and then returns that value. *)
Lemma ParseInt_decimal s z :
  ParseInt s = (z, None) ↔ decimalInt s = Some z ∧ inInt64 z.
Proof.
  destruct s as [|c s]; [simpl; split; [done | intros [? _]; done]|].
  unfold ParseInt, decimalInt.
  destruct (Ascii.eqb c "+") eqn:Hplus; [|destruct (Ascii.eqb c "-") eqn:Hminus].
  - rewrite (ParseInt_tail false). split.
    + intros (n & -> & -> & Hz). done.
    + intros [Hd Hz]. destruct (decimalNat s) as [n|]; [|done].
      injection Hd as <-. by exists n.
  - rewrite (ParseInt_tail true). split.
    + intros (n & -> & -> & Hz). done.
    + intros [Hd Hz]. destruct (decimalNat s) as [n|]; [|done].
      injection Hd as <-. by exists n.
  - rewrite (ParseInt_tail false). split.
    + intros (n & -> & -> & Hz). done.
    + intros [Hd Hz]. destruct (decimalNat (String c s)) as [n|]; [|done].
      injection Hd as <-. by exists n.
Qed.

Lemma ParseInt_failure s m e :
  ParseInt s = (m, Some e) → ¬ ∃ z, decimalInt s = Some z ∧ inInt64 z.
Proof.
  intros Hp (z & Hz). apply ParseInt_decimal in Hz. congruence.
Qed.

(** *** Formatting and parsing back *)

Lemma N_of_digitChar d : (d < 10)%N → N_of_ascii (digitChar d) = (48 + d)%N.
Proof. intros Hd. unfold digitChar. apply N_ascii_embedding. lia. Qed.

Lemma isDigit_digitChar d : (d < 10)%N → isDigit (digitChar d) = true.
Proof.
  intros Hd. unfold isDigit. rewrite N_of_digitChar by done.
  apply andb_true_iff. split; apply N.leb_le; lia.
Qed.

Lemma isDigit_not_sign c :
  isDigit c = true → Ascii.eqb c "+" = false ∧ Ascii.eqb c "-" = false.
Proof.
  unfold isDigit. intros Hd. apply andb_true_iff in Hd as [H1 H2].
  apply N.leb_le in H1, H2.
  split; apply Ascii.eqb_neq; intros ->; simpl in *; lia.
Qed.

Lemma formatLoop_value fuel : ∀ u acc,
  (u < 10 ^ N.of_nat fuel)%N →
  decimalFrom 0 (formatLoop fuel u acc) = decimalFrom u acc.
Proof.
  induction fuel as [|fuel IH]; intros u acc Hu.
  - simpl in Hu. assert (u = 0%N) as -> by lia. done.
  - cbn [formatLoop]. destruct (u <? 10)%N eqn:Hlt.
    + apply N.ltb_lt in Hlt. cbn [decimalFrom].
      rewrite isDigit_digitChar, N_of_digitChar by done.
      f_equal. lia.
    + apply N.ltb_ge in Hlt.
      rewrite Nat2N.inj_succ, N.pow_succ_r' in Hu.
      rewrite IH by (apply N.Div0.div_lt_upper_bound; done).
      cbn [decimalFrom].
      assert (u `mod` 10 < 10)%N as Hm by (apply N.mod_lt; done).
      rewrite isDigit_digitChar, N_of_digitChar by done.
      f_equal. replace (48 + u `mod` 10 - 48)%N with (u `mod` 10)%N
        by (generalize (u `mod` 10)%N; intros; lia).
      symmetry. by apply N.div_mod.
Qed.

Lemma formatLoop_head fuel : ∀ u acc,
  (u < 10 ^ N.of_nat (S fuel))%N →
  ∃ c s, formatLoop (S fuel) u acc = String c s ∧ isDigit c = true.
Proof.
  induction fuel as [|fuel IH]; intros u acc Hu; cbn [formatLoop].
  - assert (u < 10)%N as Hlt by (simpl in Hu; lia).
    apply N.ltb_lt in Hlt as Hlt'. rewrite Hlt'.
    eexists _, _. split; [done|]. by apply isDigit_digitChar.
  - destruct (u <? 10)%N eqn:Hlt.
    + apply N.ltb_lt in Hlt.
      eexists _, _. split; [done|]. by apply isDigit_digitChar.
    + apply IH. rewrite Nat2N.inj_succ, N.pow_succ_r' in Hu.
      apply N.Div0.div_lt_upper_bound. done.
Qed.

Lemma uint64_fits_buffer u : (u <= maxUint64)%N → (u < 10 ^ N.of_nat 65)%N.
Proof.
  unfold maxUint64. intros Hu.
  change (2 ^ 64 - 1)%N with 18446744073709551615%N in Hu.
  assert (18446744073709551615 < 10 ^ N.of_nat 65)%N by (vm_compute; done).
  lia.
Qed.

Lemma decimalNat_formatLoop u :
  (u <= maxUint64)%N →
  decimalNat (formatLoop 65 u "") = Some u ∧
  ∃ c s, formatLoop 65 u "" = String c s ∧ isDigit c = true.
Proof.
  intros Hu. apply uint64_fits_buffer in Hu.
  destruct (formatLoop_head 64 u "" Hu) as (c & s & Hs & Hc).
  split; [|by exists c, s].
  pose proof (formatLoop_value 65 u "" Hu) as Hv.
  rewrite Hs in Hv |- *. done.
Qed.

Lemma decimalNat_FormatUint u :
  (u <= maxUint64)%N → decimalNat (FormatUint u) = Some u.
Proof. intros Hu. unfold FormatUint, formatBits. by apply decimalNat_formatLoop. Qed.

Lemma ParseUint_FormatUint u :
  (u <= maxUint64)%N → ParseUint (FormatUint u) = (u, None).
Proof.
  intros Hu. apply ParseUint_decimal. split; [|done]. by apply decimalNat_FormatUint.
Qed.

Lemma FormatUint_inj u v :
  (u <= maxUint64)%N → (v <= maxUint64)%N → FormatUint u = FormatUint v → u = v.
Proof.
  intros Hu Hv Heq.
  pose proof (ParseUint_FormatUint u Hu) as H1.
  pose proof (ParseUint_FormatUint v Hv) as H2.
  rewrite Heq in H1. congruence.
Qed.

Lemma decimalInt_FormatInt z : inInt64 z → decimalInt (FormatInt z) = Some z.
Proof.
  intros Hz. unfold FormatInt, formatBits.
  unfold inInt64, minInt64, maxInt64 in Hz.
  change (2 ^ 63)%Z with 9223372036854775808%Z in Hz.
  destruct (z <? 0)%Z eqn:Hneg.
  - apply Z.ltb_lt in Hneg.
    rewrite toUint64_neg
      by (unfold minInt64; change (2 ^ 63)%Z with 9223372036854775808%Z; lia).
    change (2 ^ 64)%Z with 18446744073709551616%Z.
    change (2 ^ 64)%N with 18446744073709551616%N.
    assert (wrapU (18446744073709551616 - Z.to_N (z + 18446744073709551616))
            = Z.to_N (- z)) as ->.
    { rewrite wrapU_small.
      - lia.
      - unfold maxUint64. change (2 ^ 64 - 1)%N with 18446744073709551615%N. lia. }
    assert (Z.to_N (- z) <= maxUint64)%N as Hfit.
    { unfold maxUint64. change (2 ^ 64 - 1)%N with 18446744073709551615%N. lia. }
    destruct (decimalNat_formatLoop _ Hfit) as [Hv _].
    cbn [decimalInt]. change (Ascii.eqb "-" "+") with false.
    change (Ascii.eqb "-" "-") with true. cbv iota.
    rewrite Hv. simpl. f_equal. lia.
  - apply Z.ltb_ge in Hneg.
    rewrite toUint64_nonneg
      by (unfold maxInt64; change (2 ^ 63)%Z with 9223372036854775808%Z; lia).
    assert (Z.to_N z <= maxUint64)%N as Hfit.
    { unfold maxUint64. change (2 ^ 64 - 1)%N with 18446744073709551615%N. lia. }
    destruct (decimalNat_formatLoop _ Hfit) as (Hv & c & s & Hs & Hc).
    rewrite Hs in Hv |- *. cbn [decimalInt].
    destruct (isDigit_not_sign c Hc) as [-> ->].
    rewrite Hv. simpl. f_equal. lia.
Qed.

Lemma ParseInt_FormatInt z : inInt64 z → ParseInt (FormatInt z) = (z, None).
Proof.
  intros Hz. apply ParseInt_decimal. split; [|done]. by apply decimalInt_FormatInt.
Qed.

End strconvFacts.

(** ** Facts on the store *)

Section StoreFacts.

Context {key : Type} `{Countable key} {val : Type} {Rand : Type}.

Implicit Types (σ : World key val Rand) (c : FContextImpl).

Lemma copyEntries_id {K V : Type} `{Countable K} (m : gmap K V) : copyEntries m = m.
Proof.
  unfold copyEntries.
  apply (map_fold_weak_ind (λ r m, r = m)); [done|].
  intros i x m' r _ ->. done.
Qed.

Lemma headerMap_make_old m σ r :
  r < length (headerMaps σ) → headerMap (makeHeaderMap m σ).2 r = headerMap σ r.
Proof. intros Hr. unfold headerMap. simpl. by rewrite lookup_app_l. Qed.

Lemma headerMap_make_new m σ :
  headerMap (makeHeaderMap m σ).2 (length (headerMaps σ)) = m.
Proof. unfold headerMap. simpl. by rewrite list_lookup_middle. Qed.

Lemma propertyMap_make_old m σ r :
  r < length (propertyMaps σ) → propertyMap (makePropertyMap m σ).2 r = propertyMap σ r.
Proof. intros Hr. unfold propertyMap. simpl. by rewrite lookup_app_l. Qed.

Lemma propertyMap_make_new m σ :
  propertyMap (makePropertyMap m σ).2 (length (propertyMaps σ)) = m.
Proof. unfold propertyMap. simpl. by rewrite list_lookup_middle. Qed.

Lemma headerMap_store_eq r k v σ :
  r < length (headerMaps σ) →
  headerMap (storeHeader r k v σ) r = <[k:=v]> (headerMap σ r).
Proof.
  intros Hr. unfold headerMap. simpl. rewrite list_lookup_alter_eq.
  destruct (lookup_lt_is_Some_2 _ _ Hr) as [m ->]. done.
Qed.

Lemma headerMap_store_ne r r' k v σ :
  r ≠ r' → headerMap (storeHeader r k v σ) r' = headerMap σ r'.
Proof. intros Hr. unfold headerMap. simpl. by rewrite list_lookup_alter_ne. Qed.

Lemma headerMap_delete_eq r k σ :
  headerMap (deleteHeader r k σ) r = delete k (headerMap σ r).
Proof.
  unfold headerMap. simpl. rewrite list_lookup_alter_eq.
  destruct (headerMaps σ !! r); simpl; [done|]. by rewrite delete_empty.
Qed.

Lemma headerMap_delete_ne r r' k σ :
  r ≠ r' → headerMap (deleteHeader r k σ) r' = headerMap σ r'.
Proof. intros Hr. unfold headerMap. simpl. by rewrite list_lookup_alter_ne. Qed.

Lemma propertyMap_store_eq r k v σ :
  r < length (propertyMaps σ) →
  propertyMap (storeProperty r k v σ) r = <[k:=v]> (propertyMap σ r).
Proof.
  intros Hr. unfold propertyMap. simpl. rewrite list_lookup_alter_eq.
  destruct (lookup_lt_is_Some_2 _ _ Hr) as [m ->]. done.
Qed.

Lemma propertyMap_store_ne r r' k v σ :
  r ≠ r' → propertyMap (storeProperty r k v σ) r' = propertyMap σ r'.
Proof. intros Hr. unfold propertyMap. simpl. by rewrite list_lookup_alter_ne. Qed.

Lemma propertyMap_delete_ne r r' k σ :
  r ≠ r' → propertyMap (deleteProperty r k σ) r' = propertyMap σ r'.
Proof. intros Hr. unfold propertyMap. simpl. by rewrite list_lookup_alter_ne. Qed.

End StoreFacts.

(** ** What each operation does to the store *)

Section ContextFacts.

Context {key : Type} `{Countable key} {val : Type} {Rand : Type}.
Variable generateCorrelationID : Rand → string * Rand.

Implicit Types (σ : World key val Rand) (c : FContextImpl).

Lemma defaultTimeout_header :
  strconv.FormatInt (defaultTimeout `quot` time.Millisecond) = "5000".
Proof. vm_compute. done. Qed.

Lemma NewFContext_effect s σ :
  let cid := if decide (s = "") then (generateCorrelationID (rand σ)).1 else s in
  let n := Int64.wrapU (nextOpID σ + 1) in
  (NewFContext generateCorrelationID s σ).1
    = mkFContextImpl (length (headerMaps σ)) (S (length (headerMaps σ)))
                     (length (propertyMaps σ)) ∧
  headerMaps (NewFContext generateCorrelationID s σ).2
    = (headerMaps σ ++
       [ <[timeoutHeader := "5000"]>
           (<[opIDHeader := strconv.FormatUint n]> (<[cidHeader := cid]> ∅)); ∅ ])%list ∧
  propertyMaps (NewFContext generateCorrelationID s σ).2 = (propertyMaps σ ++ [∅])%list ∧
  nextOpID (NewFContext generateCorrelationID s σ).2 = n.
Proof.
  unfold NewFContext. rewrite defaultTimeout_header.
  destruct (decide (s = "")) as [->|Hs];
    [destruct (generateCorrelationID (rand σ)) as [g r]|];
    simpl; rewrite length_app, <- app_assoc; simpl;
    (split; [f_equal; lia | done]).
Qed.

Lemma Clone_effect a σ :
  requestHeaders a < length (headerMaps σ) →
  responseHeaders a < length (headerMaps σ) →
  let n := Int64.wrapU (nextOpID σ + 1) in
  (Clone a σ).1
    = mkFContextImpl (length (headerMaps σ)) (S (length (headerMaps σ)))
                     (length (propertyMaps σ)) ∧
  headerMaps (Clone a σ).2
    = (headerMaps σ ++
       [ <[opIDHeader := strconv.FormatUint n]> (headerMap σ (requestHeaders a));
         headerMap σ (responseHeaders a) ])%list ∧
  propertyMaps (Clone a σ).2
    = (propertyMaps σ ++ [propertyMap σ (ephemeralProperties a)])%list ∧
  nextOpID (Clone a σ).2 = n.
Proof.
  intros Hrq Hrs. unfold Clone, FContextImpl_Clone. simpl.
  rewrite !copyEntries_id.
  assert (headerMap (withHeaderMaps
                       (headerMaps σ ++ [headerMap σ (requestHeaders a)])%list σ)
                    (responseHeaders a) = headerMap σ (responseHeaders a)) as ->.
  { unfold headerMap. simpl. by rewrite lookup_app_l. }
  rewrite length_app, <- app_assoc. simpl.
  split; [f_equal; lia|]. split; [|done].
  unfold storeHeader. simpl.
  replace (length (headerMaps σ)) with (length (headerMaps σ) + 0) at 1 by lia.
  rewrite alter_app_r. done.
Qed.

Lemma mutate_headerMap_ne c m σ r :
  r ≠ requestHeaders c → r ≠ responseHeaders c →
  headerMap (mutate c m σ) r = headerMap σ r.
Proof.
  intros H1 H2. destruct m; simpl;
    unfold AddRequestHeader, AddResponseHeader, SetTimeout, AddEphemeralProperty;
    try (by apply headerMap_store_ne); done.
Qed.

Lemma mutate_propertyMap_ne c m σ r :
  r ≠ ephemeralProperties c → propertyMap (mutate c m σ) r = propertyMap σ r.
Proof.
  intros H1. destruct m; simpl;
    unfold AddRequestHeader, AddResponseHeader, SetTimeout, AddEphemeralProperty;
    try (by apply propertyMap_store_ne); done.
Qed.

Lemma mutate_sizes c m σ :
  length (headerMaps (mutate c m σ)) = length (headerMaps σ) ∧
  length (propertyMaps (mutate c m σ)) = length (propertyMaps σ) ∧
  nextOpID (mutate c m σ) = nextOpID σ.
Proof. destruct m; simpl; rewrite ?length_alter; done. Qed.

(** A call on one context leaves alone a context that shares no map with it. *)
Lemma mutate_observe_other c c' m σ :
  requestHeaders c' ≠ requestHeaders c → requestHeaders c' ≠ responseHeaders c →
  responseHeaders c' ≠ requestHeaders c → responseHeaders c' ≠ responseHeaders c →
  ephemeralProperties c' ≠ ephemeralProperties c →
  observe (mutate c m σ) c' = observe σ c'.
Proof.
  intros. unfold observe.
  rewrite !mutate_headerMap_ne, mutate_propertyMap_ne by done. done.
Qed.

Lemma Timeout_stored c σ z :
  requestHeaders c < length (headerMaps σ) → Int64.inInt64 z →
  Timeout c (storeHeader (requestHeaders c) timeoutHeader (strconv.FormatInt z) σ)
  = Int64.wrapS (time.Millisecond * z).
Proof.
  intros Hc Hz. unfold Timeout.
  rewrite headerMap_store_eq, lookup_insert_eq by done. simpl.
  by rewrite strconvFacts.ParseInt_FormatInt.
Qed.

Lemma quot_Millisecond_range d :
  Int64.inInt64 d →
  Int64.inInt64 (d `quot` time.Millisecond) ∧
  Int64.inInt64 (time.Millisecond * (d `quot` time.Millisecond)).
Proof.
  unfold Int64.inInt64, Int64.minInt64, Int64.maxInt64, time.Millisecond.
  change (2 ^ 63)%Z with 9223372036854775808%Z. intros Hd.
  assert (0 < 1000000)%Z as Hms by lia.
  destruct (decide (0 <= d)%Z) as [Hpos|Hneg].
  - pose proof (Z.rem_bound_pos d 1000000 Hpos Hms) as Hr.
    pose proof (Z.quot_rem' d 1000000) as Hqr.
    generalize dependent (Z.rem d 1000000). generalize dependent (d `quot` 1000000)%Z.
    intros; lia.
  - assert (d <= 0)%Z as Hle by lia.
    pose proof (Z.rem_bound_pos_neg d 1000000 Hms Hle) as Hr.
    pose proof (Z.quot_rem' d 1000000) as Hqr.
    generalize dependent (Z.rem d 1000000). generalize dependent (d `quot` 1000000)%Z.
    intros; lia.
Qed.

End ContextFacts.

(** ** Timeouts, op ids, correlation ids and ephemeral properties *)

Section HeaderClaims.

Context {key : Type} `{Countable key} {val : Type} {Rand : Type}.
Variable generateCorrelationID : Rand → string * Rand.

Implicit Types (σ : World key val Rand) (c : FContextImpl).

Lemma NewFContext_valid s σ :
  ctxValid (NewFContext generateCorrelationID s σ).2
           (NewFContext generateCorrelationID s σ).1.
Proof.
  destruct (NewFContext_effect generateCorrelationID s σ) as (-> & Hh & Hp & _).
  unfold ctxValid. rewrite Hh, Hp, !length_app. simpl. lia.
Qed.

Lemma NewFContext_request s σ :
  headerMap (NewFContext generateCorrelationID s σ).2
            (requestHeaders (NewFContext generateCorrelationID s σ).1)
  = <[timeoutHeader := "5000"]>
      (<[opIDHeader := strconv.FormatUint (Int64.wrapU (nextOpID σ + 1))]>
         (<[cidHeader := if decide (s = "")
                         then (generateCorrelationID (rand σ)).1 else s]> ∅)).
Proof.
  destruct (NewFContext_effect generateCorrelationID s σ) as (-> & Hh & _).
  unfold headerMap. rewrite Hh. simpl. by rewrite list_lookup_middle.
Qed.

(** C4.  When the [_timeout] request header is missing, or holds a string
    that is not the decimal numeral of an [int64] (in particular any string
    that is no integer numeral at all), [Timeout] returns the default of
    5000 ms.  [Timeout] has no error result. *)
Theorem Timeout_fail_soft c σ :
  match headerMap σ (requestHeaders c) !! timeoutHeader with
  | None => True
  | Some s => ¬ ∃ z, strconv.decimalInt s = Some z ∧ Int64.inInt64 z
  end →
  Timeout c σ = defaultTimeout ∧ defaultTimeout = (5000 * time.Millisecond)%Z.
Proof.
  intros Hbad. split; [|done]. unfold Timeout.
  destruct (headerMap σ (requestHeaders c) !! timeoutHeader) as [s|]; simpl; [|done].
  destruct (strconv.ParseInt s) as [z [e|]] eqn:Hp; [done|].
  apply strconvFacts.ParseInt_decimal in Hp. destruct Hbad. by exists z.
Qed.

(** C5, amended.  [getOpID] returns an error exactly when the [_opid] request
    header is absent or its value is not a non-empty string of decimal digits
    denoting a number of at most [2^64 - 1]; otherwise it returns the number
    the header denotes, without error. *)
Theorem getOpID_characterised c σ :
  (is_Some (getOpID c σ).2 ↔
   match headerMap σ (requestHeaders c) !! opIDHeader with
   | None => True
   | Some s => ¬ ∃ n, strconv.decimalNat s = Some n ∧ (n <= Int64.maxUint64)%N
   end) ∧
  (∀ s n, headerMap σ (requestHeaders c) !! opIDHeader = Some s →
          strconv.decimalNat s = Some n → (n <= Int64.maxUint64)%N →
          getOpID c σ = (n, None)).
Proof.
  unfold getOpID, RequestHeader.
  destruct (headerMap σ (requestHeaders c) !! opIDHeader) as [s|]; simpl.
  - destruct (strconvFacts.ParseUint_cases s)
      as [(m & Hp & Hm & Hle)|(m & e & Hp & _ & Hbig)]; rewrite Hp; simpl.
    + split.
      * split; [intros [? [=]] | intros Hno; destruct Hno; by exists m].
      * intros s' n [= <-] Hn _. rewrite Hm in Hn. by injection Hn as <-.
    + split.
      * split; [|by eexists]. intros _ (n & Hn & Hle). apply Hbig in Hn. lia.
      * intros s' n [= <-] Hn Hle. apply Hbig in Hn. lia.
  - split; [|done]. split; [done | by eexists].
Qed.

(** C6.  After [SetTimeout(7500ms)], [Timeout] returns 7500 ms; on a context
    fresh from [NewFContext] it returns 5000 ms. *)
Theorem Timeout_round_trip :
  (∀ c σ, ctxValid σ c →
          Timeout c (SetTimeout c (7500 * time.Millisecond) σ)
          = (7500 * time.Millisecond)%Z) ∧
  (∀ s σ, Timeout (NewFContext generateCorrelationID s σ).1
                  (NewFContext generateCorrelationID s σ).2
          = (5000 * time.Millisecond)%Z).
Proof.
  split.
  - intros c σ (Hc & _). unfold SetTimeout.
    change (7500 * time.Millisecond `quot` time.Millisecond)%Z with 7500%Z.
    rewrite Timeout_stored; [done | done | vm_compute; split; discriminate].
  - intros s σ. unfold Timeout. rewrite NewFContext_request.
    rewrite lookup_insert_eq. done.
Qed.


(** C9.  [AddEphemeralProperty] leaves every table of type
    [map[string]string] as it was, so the request headers and the response
    headers of every context are unchanged and gain no entry. *)
Theorem AddEphemeralProperty_keeps_headers c k v σ :
  headerMaps (AddEphemeralProperty c k v σ) = headerMaps σ ∧
  (∀ c', snapRequest (observe (AddEphemeralProperty c k v σ) c')
         = snapRequest (observe σ c') ∧
         snapResponse (observe (AddEphemeralProperty c k v σ) c')
         = snapResponse (observe σ c')) ∧
  (∀ c' name, RequestHeader c' name (AddEphemeralProperty c k v σ)
              = RequestHeader c' name σ ∧
              ResponseHeader c' name (AddEphemeralProperty c k v σ)
              = ResponseHeader c' name σ).
Proof. done. Qed.

Lemma FormatInt_negative q :
  (q < 0)%Z → ∃ digits, strconv.FormatInt q = String "-" digits.
Proof.
  intros Hq. unfold strconv.FormatInt, strconv.formatBits.
  apply Z.ltb_lt in Hq. rewrite Hq. by eexists.
Qed.

Lemma quot_Millisecond_sign d :
  let q := (d `quot` time.Millisecond)%Z in
  (Z.abs (time.Millisecond * q) <= Z.abs d)%Z ∧
  (Z.abs (d - time.Millisecond * q) < time.Millisecond)%Z ∧
  ((d < 0)%Z → (time.Millisecond * q <= 0)%Z) ∧
  ((d <= - time.Millisecond)%Z → (q < 0)%Z) ∧
  ((- time.Millisecond < d < time.Millisecond)%Z → q = 0%Z).
Proof.
  intros q. unfold time.Millisecond in *.
  assert (0 < 1000000)%Z as Hms by lia.
  destruct (decide (0 <= d)%Z) as [Hpos|Hneg].
  - pose proof (Z.rem_bound_pos d 1000000 Hpos Hms) as Hr.
    pose proof (Z.quot_rem' d 1000000) as Hqr. fold q in Hqr.
    generalize dependent (Z.rem d 1000000). generalize dependent q.
    intros; lia.
  - assert (d <= 0)%Z as Hle by lia.
    pose proof (Z.rem_bound_pos_neg d 1000000 Hms Hle) as Hr.
    pose proof (Z.quot_rem' d 1000000) as Hqr. fold q in Hqr.
    generalize dependent (Z.rem d 1000000). generalize dependent q.
    intros; lia.
Qed.

(** C10, amended.  For every duration [d], [SetTimeout(d)] stores the decimal
    numeral of [d] divided by a millisecond, rounded toward zero; the numeral
    parses back, and [Timeout] returns that whole number of milliseconds.  A
    negative duration is never replaced by the default.  A duration of minus
    one millisecond or less is stored as a numeral with a minus sign and
    returned as a negative duration; a duration strictly between minus one
    millisecond and one millisecond, negative or not, is stored as ["0"] and
    returned as 0. *)
Theorem SetTimeout_truncates c σ d :
  ctxValid σ c → Int64.inInt64 d →
  let q := (d `quot` time.Millisecond)%Z in
  let σ' := SetTimeout c d σ in
  headerMap σ' (requestHeaders c) !! timeoutHeader = Some (strconv.FormatInt q) ∧
  strconv.decimalInt (strconv.FormatInt q) = Some q ∧
  strconv.ParseInt (strconv.FormatInt q) = (q, None) ∧
  Timeout c σ' = (time.Millisecond * q)%Z ∧
  (Z.abs (Timeout c σ') <= Z.abs d)%Z ∧
  (Z.abs (d - Timeout c σ') < time.Millisecond)%Z ∧
  ((d < 0)%Z → (Timeout c σ' <= 0)%Z ∧ Timeout c σ' ≠ defaultTimeout) ∧
  ((d <= - time.Millisecond)%Z → (q < 0)%Z ∧ (Timeout c σ' < 0)%Z) ∧
  ((d <= - time.Millisecond)%Z →
   ∃ digits, strconv.FormatInt q = String "-" digits) ∧
  ((- time.Millisecond < d < time.Millisecond)%Z →
   strconv.FormatInt q = "0" ∧ Timeout c σ' = 0%Z).
Proof.
  intros (Hc & _) Hd q σ'.
  destruct (quot_Millisecond_range d Hd) as [Hq Hmq]. fold q in Hq, Hmq.
  destruct (quot_Millisecond_sign d) as (Habs & Hnear & Hneg & Hminus & Hzero).
  fold q in Habs, Hnear, Hneg, Hminus, Hzero.
  assert (Timeout c σ' = (time.Millisecond * q)%Z) as HT.
  { unfold σ', SetTimeout. fold q. rewrite Timeout_stored by done.
    by apply Int64Facts.wrapS_small. }
  split; [unfold σ', SetTimeout; by rewrite headerMap_store_eq, lookup_insert_eq|].
  split; [by apply strconvFacts.decimalInt_FormatInt|].
  split; [by apply strconvFacts.ParseInt_FormatInt|].
  split; [done|]. rewrite HT.
  split; [done|]. split; [done|].
  split.
  { intros Hlt. specialize (Hneg Hlt). split; [done|].
    unfold defaultTimeout, time.Second, time.Millisecond in *. lia. }
  split.
  { intros Hle. specialize (Hminus Hle). split; [done|].
    unfold time.Millisecond in *. lia. }
  split; [intros Hle; apply FormatInt_negative; by apply Hminus|].
  intros Hsmall. rewrite (Hzero Hsmall). done.
Qed.

End HeaderClaims.

(** ** Copies: [Clone] and the map accessors *)

Section CopyClaims.

Context {key : Type} `{Countable key} {val : Type} {Rand : Type}.

Implicit Types (σ : World key val Rand) (c : FContextImpl).

Lemma headerMap_appended σ σ' m1 m2 :
  headerMaps σ' = (headerMaps σ ++ [m1; m2])%list →
  (∀ r, r < length (headerMaps σ) → headerMap σ' r = headerMap σ r) ∧
  headerMap σ' (length (headerMaps σ)) = m1 ∧
  headerMap σ' (S (length (headerMaps σ))) = m2.
Proof.
  intros Hh. unfold headerMap. rewrite Hh. split; [|split].
  - intros r Hr. by rewrite lookup_app_l.
  - by rewrite list_lookup_middle.
  - rewrite lookup_app_r by lia.
    by replace (S (length (headerMaps σ)) - length (headerMaps σ)) with 1 by lia.
Qed.

Lemma propertyMap_appended σ σ' m :
  propertyMaps σ' = (propertyMaps σ ++ [m])%list →
  (∀ r, r < length (propertyMaps σ) → propertyMap σ' r = propertyMap σ r) ∧
  propertyMap σ' (length (propertyMaps σ)) = m.
Proof.
  intros Hp. unfold propertyMap. rewrite Hp. split.
  - intros r Hr. by rewrite lookup_app_l.
  - by rewrite list_lookup_middle.
Qed.

(** C1, amended.  The clone [B] of a context [A] has the correlation id of
    [A]; its [_opid] is the next value of the global counter, which differs
    from the [_opid] of [A] whenever that one encodes a value the counter has
    already passed and the counter is not at its last value; every other
    request header, the response headers and the ephemeral properties are
    those of [A] at the time of the call; and afterwards a call that changes
    [A] leaves the maps of [B] alone, and the other way round. *)
Theorem Clone_independent (A : FContextImpl) σ :
  ctxValid σ A →
  let B := (Clone A σ).1 in
  let σ' := (Clone A σ).2 in
  let fresh := strconv.FormatUint (Int64.wrapU (nextOpID σ + 1)) in
  CorrelationID B σ' = CorrelationID A σ ∧
  headerMap σ' (requestHeaders B) !! cidHeader
    = headerMap σ (requestHeaders A) !! cidHeader ∧
  (getNextOpID σ).1 = fresh ∧
  headerMap σ' (requestHeaders B) !! opIDHeader = Some fresh ∧
  (∀ n, headerMap σ (requestHeaders A) !! opIDHeader = Some (strconv.FormatUint n) →
        (n <= nextOpID σ)%N → (nextOpID σ < Int64.maxUint64)%N →
        headerMap σ' (requestHeaders B) !! opIDHeader
        ≠ headerMap σ' (requestHeaders A) !! opIDHeader) ∧
  (∀ name, name ≠ opIDHeader →
           headerMap σ' (requestHeaders B) !! name
           = headerMap σ (requestHeaders A) !! name) ∧
  snapResponse (observe σ' B) = snapResponse (observe σ A) ∧
  snapEphemeral (observe σ' B) = snapEphemeral (observe σ A) ∧
  observe σ' A = observe σ A ∧
  (∀ m, observe (mutate A m σ') B = observe σ' B) ∧
  (∀ m, observe (mutate B m σ') A = observe σ' A).
Proof.
  intros (Hrq & Hrs & Hep) B σ' fresh.
  destruct (Clone_effect A σ Hrq Hrs) as (HB & Hh & Hp & Hn).
  fold B in HB. fold σ' in Hh, Hp, Hn.
  destruct (headerMap_appended σ σ' _ _ Hh) as (Hold & Hnew1 & Hnew2).
  destruct (propertyMap_appended σ σ' _ Hp) as (Hpold & Hpnew).
  assert (requestHeaders B = length (headerMaps σ)) as HBrq by (by rewrite HB).
  assert (responseHeaders B = S (length (headerMaps σ))) as HBrs by (by rewrite HB).
  assert (ephemeralProperties B = length (propertyMaps σ)) as HBep by (by rewrite HB).
  assert (headerMap σ' (requestHeaders B)
          = <[opIDHeader := fresh]> (headerMap σ (requestHeaders A))) as HBreq
    by (by rewrite HBrq).
  split; [unfold CorrelationID; by rewrite HBreq, lookup_insert_ne|].
  split; [by rewrite HBreq, lookup_insert_ne|].
  split; [done|].
  split; [by rewrite HBreq, lookup_insert_eq|].
  split.
  { intros n Hopid Hle Hlt. rewrite HBreq, lookup_insert_eq, Hold, Hopid by done.
    intros [= Heq]. unfold fresh in Heq.
    rewrite Int64Facts.wrapU_small in Heq by lia.
    apply strconvFacts.FormatUint_inj in Heq; lia. }
  split; [intros name Hname; by rewrite HBreq, lookup_insert_ne|].
  split; [cbn [observe snapResponse]; by rewrite HBrs|].
  split; [cbn [observe snapEphemeral]; by rewrite HBep|].
  split; [unfold observe; by rewrite !Hold, Hpold|].
  split.
  - intros m. apply mutate_observe_other; lia.
  - intros m. apply mutate_observe_other; lia.
Qed.

(** C8.  Each of [RequestHeaders], [ResponseHeaders] and
    [EphemeralProperties] returns a new map that holds what the map of the
    context holds.  Storing into the returned map or deleting from it leaves
    the context as it was, and a later call that changes the context (or any
    other context of the store) leaves the returned map as it was. *)
Theorem accessors_return_copies c σ :
  ctxValid σ c →
  (let r := (RequestHeaders c σ).1 in
   let σ' := (RequestHeaders c σ).2 in
   headerMap σ' r = snapRequest (observe σ c) ∧
   observe σ' c = observe σ c ∧
   (∀ k v, observe (storeHeader r k v σ') c = observe σ' c) ∧
   (∀ k, observe (deleteHeader r k σ') c = observe σ' c) ∧
   (∀ c' m, ctxValid σ c' → headerMap (mutate c' m σ') r = headerMap σ' r)) ∧
  (let r := (ResponseHeaders c σ).1 in
   let σ' := (ResponseHeaders c σ).2 in
   headerMap σ' r = snapResponse (observe σ c) ∧
   observe σ' c = observe σ c ∧
   (∀ k v, observe (storeHeader r k v σ') c = observe σ' c) ∧
   (∀ k, observe (deleteHeader r k σ') c = observe σ' c) ∧
   (∀ c' m, ctxValid σ c' → headerMap (mutate c' m σ') r = headerMap σ' r)) ∧
  (let r := (EphemeralProperties c σ).1 in
   let σ' := (EphemeralProperties c σ).2 in
   propertyMap σ' r = snapEphemeral (observe σ c) ∧
   observe σ' c = observe σ c ∧
   (∀ k v, observe (storeProperty r k v σ') c = observe σ' c) ∧
   (∀ k, observe (deleteProperty r k σ') c = observe σ' c) ∧
   (∀ c' m, ctxValid σ c' → propertyMap (mutate c' m σ') r = propertyMap σ' r)).
Proof.
  intros (Hrq & Hrs & Hep). split; [|split].
  - unfold RequestHeaders. rewrite copyEntries_id. cbn zeta.
    set (σ' := (makeHeaderMap _ σ).2). cbn [fst makeHeaderMap].
    assert (observe σ' c = observe σ c) as Hobs.
    { unfold observe, σ'. by rewrite !headerMap_make_old. }
    split; [apply headerMap_make_new|]. split; [done|]. split; [|split].
    + intros k v. unfold observe.
      rewrite !headerMap_store_ne by lia. done.
    + intros k. unfold observe. rewrite !headerMap_delete_ne by lia. done.
    + intros c' m (Hrq' & Hrs' & _). apply mutate_headerMap_ne; lia.
  - unfold ResponseHeaders. rewrite copyEntries_id. cbn zeta.
    set (σ' := (makeHeaderMap _ σ).2). cbn [fst makeHeaderMap].
    assert (observe σ' c = observe σ c) as Hobs.
    { unfold observe, σ'. by rewrite !headerMap_make_old. }
    split; [apply headerMap_make_new|]. split; [done|]. split; [|split].
    + intros k v. unfold observe.
      rewrite !headerMap_store_ne by lia. done.
    + intros k. unfold observe. rewrite !headerMap_delete_ne by lia. done.
    + intros c' m (Hrq' & Hrs' & _). apply mutate_headerMap_ne; lia.
  - unfold EphemeralProperties. rewrite copyEntries_id. cbn zeta.
    set (σ' := (makePropertyMap _ σ).2). cbn [fst makePropertyMap].
    assert (observe σ' c = observe σ c) as Hobs.
    { unfold observe, σ'. by rewrite propertyMap_make_old. }
    split; [apply propertyMap_make_new|]. split; [done|]. split; [|split].
    + intros k v. unfold observe.
      rewrite propertyMap_store_ne by lia. done.
    + intros k. unfold observe. rewrite propertyMap_delete_ne by lia. done.
    + intros c' m (_ & _ & Hep'). apply mutate_propertyMap_ne; lia.
Qed.

End CopyClaims.

(** ** Processes: what a call does to the contexts that exist *)

Section ProcessFacts.

Context {key : Type} `{Countable key} {val : Type} {Rand : Type}.
Variable generateCorrelationID : Rand → string * Rand.

Implicit Types (σ : World key val Rand) (c : FContextImpl).
Implicit Types (p : Process key val Rand) (call : Call key val).
Implicit Types (calls : list (Call key val)) (r : Rand).

Lemma run_snoc calls call p :
  run generateCorrelationID (calls ++ [call]) p
  = perform generateCorrelationID (run generateCorrelationID calls p) call.
Proof. unfold run. by rewrite foldl_snoc. Qed.

Lemma ctxValid_grow σ σ' c :
  (length (headerMaps σ) <= length (headerMaps σ'))%nat →
  (length (propertyMaps σ) <= length (propertyMaps σ'))%nat →
  ctxValid σ c → ctxValid σ' c.
Proof. unfold ctxValid. lia. Qed.

(** A call either creates no context and draws no op id, or it appends one
    context whose three maps are new in the store and draws one op id.  The
    request headers of the new context are those [NewFContext] writes, or
    those of the cloned context with a new [_opid]. *)
Lemma perform_shape p call :
  procValid p →
  let p' := perform generateCorrelationID p call in
  (live p' = live p ∧ nextOpID (world p') = nextOpID (world p) ∧
   (length (headerMaps (world p)) <= length (headerMaps (world p')))%nat ∧
   (length (propertyMaps (world p)) <= length (propertyMaps (world p')))%nat) ∨
  (∃ m1 m2 m3,
     live p' = (live p ++ [mkFContextImpl (length (headerMaps (world p)))
                                          (S (length (headerMaps (world p))))
                                          (length (propertyMaps (world p)))])%list ∧
     nextOpID (world p') = Int64.wrapU (nextOpID (world p) + 1) ∧
     headerMaps (world p') = (headerMaps (world p) ++ [m1; m2])%list ∧
     propertyMaps (world p') = (propertyMaps (world p) ++ [m3])%list ∧
     ((∃ cid, m1 = <[timeoutHeader := "5000"]>
                     (<[opIDHeader := strconv.FormatUint
                                        (Int64.wrapU (nextOpID (world p) + 1))]>
                        (<[cidHeader := cid]> ∅))) ∨
      (∃ a, a ∈ live p ∧
            m1 = <[opIDHeader := strconv.FormatUint
                                   (Int64.wrapU (nextOpID (world p) + 1))]>
                   (headerMap (world p) (requestHeaders a))))).
Proof.
  intros [Hvalid _] p'. unfold p'. clear p'.
  destruct call as [s|i|i m|i|i|i]; cbn [perform].
  - right.
    pose proof (NewFContext_effect generateCorrelationID s (world p)) as Heff.
    destruct (NewFContext generateCorrelationID s (world p)) as [cn σn].
    simpl in Heff. destruct Heff as (-> & Hh & Hp & Hn).
    eexists _, _, _. simpl. split; [done|]. split; [done|].
    split; [done|]. split; [done|]. left. by eexists.
  - destruct (live p !! i) as [a|] eqn:Ha; [|left; done].
    right. pose proof (proj1 (Forall_lookup _ _) Hvalid i a Ha) as (Hrq & Hrs & _).
    pose proof (Clone_effect a (world p) Hrq Hrs) as Heff.
    destruct (Clone a (world p)) as [cn σn].
    simpl in Heff. destruct Heff as (-> & Hh & Hp & Hn).
    eexists _, _, _. simpl. split; [done|]. split; [done|].
    split; [done|]. split; [done|]. right. exists a.
    split; [by eapply list_elem_of_lookup_2 | done].
  - destruct (live p !! i) as [a|]; [|left; done].
    left. cbn [live world].
    destruct (mutate_sizes a m (world p)) as (-> & -> & ->). done.
  - destruct (live p !! i) as [a|]; [|left; done].
    left. simpl. rewrite length_app. simpl. split; [done|]. split; [done|]. lia.
  - destruct (live p !! i) as [a|]; [|left; done].
    left. simpl. rewrite length_app. simpl. split; [done|]. split; [done|]. lia.
  - destruct (live p !! i) as [a|]; [|left; done].
    left. simpl. rewrite length_app. simpl. split; [done|]. split; [done|]. lia.
Qed.

Lemma perform_valid p call :
  procValid p → procValid (perform generateCorrelationID p call).
Proof.
  intros Hp. pose proof Hp as [Hvalid Hsep].
  destruct (perform_shape p call Hp)
    as [(Hl & _ & Hh & Hq)|(m1 & m2 & m3 & Hl & _ & Hh & Hq & _)].
  - split; rewrite Hl; [|done].
    eapply Forall_impl; [done|]. intros c. by apply ctxValid_grow.
  - assert (∀ c, c ∈ live p → ctxValid (world p) c) as Hv
      by (by apply Forall_forall).
    split; rewrite Hl.
    + apply Forall_app. split.
      * eapply Forall_impl; [done|]. intros c. apply ctxValid_grow.
        -- rewrite Hh, length_app. lia.
        -- rewrite Hq, length_app. lia.
      * apply Forall_singleton. unfold ctxValid.
        rewrite Hh, Hq, !length_app. simpl. lia.
    + intros a b Ha Hb.
      apply elem_of_app in Ha as [Ha|Ha], Hb as [Hb|Hb].
      * by apply Hsep.
      * apply list_elem_of_singleton in Hb as ->. simpl.
        destruct (Hv a Ha) as (? & _). lia.
      * apply list_elem_of_singleton in Ha as ->. simpl.
        destruct (Hv b Hb) as (_ & ? & _). lia.
      * apply list_elem_of_singleton in Ha as ->.
        apply list_elem_of_singleton in Hb as ->. simpl. lia.
Qed.

(** The request headers of a context that exists are left as they are, or
    get one entry written by [AddRequestHeader] or by [SetTimeout]. *)
Lemma perform_old_request p call c :
  procValid p → c ∈ live p →
  let m := headerMap (world p) (requestHeaders c) in
  let m' := headerMap (world (perform generateCorrelationID p call)) (requestHeaders c) in
  m' = m ∨
  (∃ i name value, call = CallMutate i (MutAddRequestHeader name value) ∧
                   m' = <[name := value]> m) ∨
  (∃ i d, call = CallMutate i (MutSetTimeout d) ∧
          m' = <[timeoutHeader := strconv.FormatInt (d `quot` time.Millisecond)]> m).
Proof.
  intros Hp Hc. pose proof Hp as [Hvalid Hsep].
  assert (requestHeaders c < length (headerMaps (world p))) as Hrq.
  { by destruct (proj1 (Forall_forall _ _) Hvalid c Hc) as (? & _). }
  destruct (perform_shape p call Hp)
    as [(Hl & _ & Hh & Hq)|(m1 & m2 & m3 & _ & _ & Hh & _)]; cbn zeta.
  - destruct call as [s|i|i m|i|i|i]; cbn [perform] in *.
    + destruct (NewFContext _ _ _). simpl in *.
      assert (length (live p) = length (live p ++ [f])%list) as Hlen by (by rewrite Hl).
      rewrite length_app in Hlen. simpl in Hlen. lia.
    + destruct (live p !! i) as [a|]; [|by left].
      destruct (Clone _ _). simpl in *.
      assert (length (live p) = length (live p ++ [f])%list) as Hlen by (by rewrite Hl).
      rewrite length_app in Hlen. simpl in Hlen. lia.
    + destruct (live p !! i) as [a|] eqn:Ha; [|by left].
      assert (a ∈ live p) as Hain by (by eapply list_elem_of_lookup_2).
      destruct m as [name value|name value|d|k v]; simpl.
      * destruct (decide (requestHeaders a = requestHeaders c)) as [Heq|Hne].
        -- right. left. exists i, name, value. split; [done|].
           unfold AddRequestHeader. rewrite Heq. by apply headerMap_store_eq.
        -- left. by apply headerMap_store_ne.
      * left. apply headerMap_store_ne. intros Heq. by apply (Hsep c a).
      * destruct (decide (requestHeaders a = requestHeaders c)) as [Heq|Hne].
        -- right. right. exists i, d. split; [done|].
           unfold SetTimeout. rewrite Heq. by apply headerMap_store_eq.
        -- left. by apply headerMap_store_ne.
      * by left.
    + destruct (live p !! i) as [a|]; [|by left]. left. by apply headerMap_make_old.
    + destruct (live p !! i) as [a|]; [|by left]. left. by apply headerMap_make_old.
    + destruct (live p !! i) as [a|]; [|by left]. by left.
  - left. by apply (headerMap_appended _ _ _ _ Hh).
Qed.

(** The request headers of a context after a call, whether the context
    existed before the call or was made by it. *)
Lemma perform_request p call c :
  procValid p → c ∈ live (perform generateCorrelationID p call) →
  let fresh := strconv.FormatUint (Int64.wrapU (nextOpID (world p) + 1)) in
  let m' := headerMap (world (perform generateCorrelationID p call)) (requestHeaders c) in
  (c ∈ live p ∧
   (m' = headerMap (world p) (requestHeaders c) ∨
    (∃ i name value, call = CallMutate i (MutAddRequestHeader name value) ∧
                     m' = <[name := value]> (headerMap (world p) (requestHeaders c))) ∨
    (∃ i d, call = CallMutate i (MutSetTimeout d) ∧
            m' = <[timeoutHeader := strconv.FormatInt (d `quot` time.Millisecond)]>
                   (headerMap (world p) (requestHeaders c))))) ∨
  (∃ cid, m' = <[timeoutHeader := "5000"]>
                 (<[opIDHeader := fresh]> (<[cidHeader := cid]> ∅))) ∨
  (∃ a, a ∈ live p ∧
        m' = <[opIDHeader := fresh]> (headerMap (world p) (requestHeaders a))).
Proof.
  intros Hp Hc. cbn zeta.
  destruct (perform_shape p call Hp)
    as [(Hl & _)|(m1 & m2 & m3 & Hl & _ & Hh & _ & Hm1)].
  - rewrite Hl in Hc. left. split; [done|]. by apply perform_old_request.
  - rewrite Hl in Hc. apply elem_of_app in Hc as [Hc|Hc].
    + left. split; [done|]. by apply perform_old_request.
    + apply list_elem_of_singleton in Hc as ->. right. cbn [requestHeaders].
      destruct (headerMap_appended _ _ _ _ Hh) as (_ & -> & _).
      destruct Hm1 as [[cid ->]|(a & Ha & ->)]; [left; by exists cid | right; by exists a].
Qed.

Lemma countKey_lookup k (m : gmap string string) :
  countKey k m = if m !! k is Some _ then 1 else 0.
Proof.
  unfold countKey. induction m as [|i x m Hi IH] using map_ind.
  - by rewrite map_to_list_empty, lookup_empty.
  - assert (filter (λ kv : string * string, kv.1 = k) (map_to_list (<[i:=x]> m))
            ≡ₚ filter (λ kv : string * string, kv.1 = k) ((i, x) :: map_to_list m)) as Hperm
      by (by rewrite map_to_list_insert).
    rewrite (Permutation_length Hperm), filter_cons. simpl.
    destruct (decide (i = k)) as [->|Hne].
    + rewrite lookup_insert_eq. simpl. rewrite IH, Hi. done.
    + rewrite lookup_insert_ne by done. done.
Qed.

Lemma reserved_kept (m m' : gmap string string) name value k :
  m' = m ∨ m' = <[name := value]> m → is_Some (m !! k) → is_Some (m' !! k).
Proof.
  intros [->| ->]; [done|]. intros Hk. apply lookup_insert_is_Some.
  destruct (decide (name = k)); [by left | by right].
Qed.

(** Every context of a process keeps its three reserved request headers. *)
Lemma run_reserved r calls :
  let p := run generateCorrelationID calls (initProcess r) in
  procValid p ∧
  ∀ c k, c ∈ live p → k ∈ [cidHeader; opIDHeader; timeoutHeader] →
         is_Some (headerMap (world p) (requestHeaders c) !! k).
Proof.
  induction calls as [|call calls IH] using rev_ind; cbn zeta.
  - split; [split; [constructor | intros a b Ha; by apply elem_of_nil in Ha]|].
    intros c k Hc. by apply elem_of_nil in Hc.
  - rewrite run_snoc. destruct IH as [Hp IH].
    split; [by apply perform_valid|]. intros c k Hc Hk.
    destruct (perform_request _ call c Hp Hc)
      as [(Hold & [Hm|[(i & name & value & _ & Hm)|(i & d & _ & Hm)]])
         |[(cid & Hm)|(a & Ha & Hm)]]; rewrite Hm.
    + by apply IH.
    + eapply reserved_kept; [by right | by apply IH].
    + eapply reserved_kept; [by right | by apply IH].
    + apply elem_of_cons in Hk as [->|Hk]; [by eexists|].
      apply elem_of_cons in Hk as [->|Hk]; [by eexists|].
      apply list_elem_of_singleton in Hk as ->. by eexists.
    + eapply reserved_kept; [by right | by apply IH].
Qed.

Lemma timeoutNonNegative_stored d :
  (0 <= d <= Int64.maxInt64)%Z →
  ∃ z, strconv.ParseInt (strconv.FormatInt (d `quot` time.Millisecond)) = (z, None) ∧
       (0 <= z)%Z.
Proof.
  intros Hd. exists (d `quot` time.Millisecond)%Z.
  assert (Int64.inInt64 d) as Hin.
  { unfold Int64.inInt64, Int64.minInt64, Int64.maxInt64 in *.
    change (2 ^ 63)%Z with 9223372036854775808%Z in *. lia. }
  destruct (quot_Millisecond_range d Hin) as [Hq _].
  split; [by apply strconvFacts.ParseInt_FormatInt|].
  apply Z.quot_pos; [lia | done].
Qed.

(** While no call stores a negative timeout or writes [_timeout] as a plain
    header, the [_timeout] of every context parses as a non-negative
    integer. *)
Lemma run_timeout r calls :
  Forall keepsTimeout calls →
  let p := run generateCorrelationID calls (initProcess r) in
  ∀ c, c ∈ live p → timeoutNonNegative (world p) c.
Proof.
  induction calls as [|call calls IH] using rev_ind; intros Hcalls; cbn zeta.
  - intros c Hc. by apply elem_of_nil in Hc.
  - apply Forall_app in Hcalls as [Hcalls Hcall].
    rewrite Forall_singleton in Hcall.
    specialize (IH Hcalls). cbn zeta in IH.
    destruct (run_reserved r calls) as [Hp _].
    rewrite run_snoc. intros c Hc. unfold timeoutNonNegative.
    destruct (perform_request _ call c Hp Hc)
      as [(Hold & [Hm|[(i & name & value & -> & Hm)|(i & d & -> & Hm)]])
         |[(cid & Hm)|(a & Ha & Hm)]]; rewrite Hm.
    + by apply IH.
    + cbn [keepsTimeout] in Hcall. rewrite lookup_insert_ne by exact Hcall.
      by apply IH.
    + cbn [keepsTimeout] in Hcall. rewrite lookup_insert_eq.
      destruct (timeoutNonNegative_stored d Hcall) as (z & Hz & Hz0).
      by eexists _, z.
    + rewrite lookup_insert_eq. by exists "5000", 5000%Z.
    + rewrite lookup_insert_ne by done. by apply IH.
Qed.

(** C3, amended.  In every process reached from the empty one by calls of the
    public operations, the request headers of every context hold exactly one
    [_cid] entry, one [_opid] entry and one [_timeout] entry; and the
    [_timeout] entry parses as a non-negative integer as long as [SetTimeout]
    has only been given non-negative durations and [AddRequestHeader] has not
    been used on [_timeout]. *)
Theorem reserved_headers_invariant r calls c :
  let p := run generateCorrelationID calls (initProcess r) in
  c ∈ live p →
  let hm := headerMap (world p) (requestHeaders c) in
  (countKey cidHeader hm = 1 ∧ is_Some (hm !! cidHeader)) ∧
  (countKey opIDHeader hm = 1 ∧ is_Some (hm !! opIDHeader)) ∧
  (countKey timeoutHeader hm = 1 ∧ is_Some (hm !! timeoutHeader)) ∧
  (Forall keepsTimeout calls → timeoutNonNegative (world p) c).
Proof.
  intros p Hc hm. destruct (run_reserved r calls) as [_ Hkeys].
  assert (∀ k, k ∈ [cidHeader; opIDHeader; timeoutHeader] →
               countKey k hm = 1 ∧ is_Some (hm !! k)) as Hone.
  { intros k Hk. specialize (Hkeys c k Hc Hk). split; [|done].
    rewrite countKey_lookup. fold p hm in Hkeys. by destruct Hkeys as [v ->]. }
  split; [apply Hone; repeat constructor|].
  split; [apply Hone; repeat constructor|].
  split; [apply Hone; repeat constructor|].
  intros Hcalls. by apply run_timeout.
Qed.

(** *** The op-id counter *)

Lemma drawMany_counter r n :
  nextOpID (drawMany n (initWorld (key := key) (val := val) r)) = Int64.wrapU n.
Proof.
  induction n as [|n IH] using N.peano_ind; [done|].
  unfold drawMany in *. rewrite N.iter_succ.
  change (nextOpID (getNextOpID ?σ).2) with (Int64.wrapU (nextOpID σ + 1)).
  rewrite IH. unfold Int64.wrapU.
  rewrite N.Div0.add_mod_idemp_l. f_equal. lia.
Qed.

Lemma nthDraw_value r k :
  (1 <= k)%N → (k <= Int64.maxUint64)%N →
  nthDraw (key := key) (val := val) r k = strconv.FormatUint k.
Proof.
  intros H1 Hk. unfold nthDraw, getNextOpID. cbn [fst].
  rewrite drawMany_counter. f_equal.
  rewrite (Int64Facts.wrapU_small (k - 1)) by lia.
  rewrite Int64Facts.wrapU_small by lia. lia.
Qed.

Lemma perform_old_opid p call c :
  procValid p → keepsOpID call → c ∈ live p →
  headerMap (world (perform generateCorrelationID p call)) (requestHeaders c) !! opIDHeader
  = headerMap (world p) (requestHeaders c) !! opIDHeader.
Proof.
  intros Hp Hcall Hc.
  destruct (perform_old_request p call c Hp Hc)
    as [Hm|[(i & name & value & -> & Hm)|(i & d & -> & Hm)]]; rewrite Hm.
  - done.
  - cbn [keepsOpID] in Hcall. by rewrite lookup_insert_ne by exact Hcall.
  - by rewrite lookup_insert_ne.
Qed.

(** While [_opid] is not written as a plain header and the counter has not
    run through all its values, the counter equals the number of contexts
    made so far and the context made [i]-th holds the encoding of [i]. *)
Lemma run_opids r calls :
  Forall keepsOpID calls →
  let p := run generateCorrelationID calls (initProcess r) in
  (N.of_nat (length (live p)) <= Int64.maxUint64)%N →
  nextOpID (world p) = N.of_nat (length (live p)) ∧
  ∀ i c, live p !! i = Some c →
         headerMap (world p) (requestHeaders c) !! opIDHeader
         = Some (strconv.FormatUint (N.of_nat (S i))).
Proof.
  induction calls as [|call calls IH] using rev_ind; intros Hcalls; cbn zeta.
  - intros _. split; [done|]. intros i c Hi. done.
  - apply Forall_app in Hcalls as [Hcalls Hcall].
    rewrite Forall_singleton in Hcall.
    specialize (IH Hcalls). cbn zeta in IH.
    destruct (run_reserved r calls) as [Hp _].
    rewrite run_snoc.
    set (p := run generateCorrelationID calls (initProcess r)) in *.
    destruct (perform_shape p call Hp)
      as [(Hl & Hn & _)|(m1 & m2 & m3 & Hl & Hn & Hh & _ & Hm1)];
      rewrite Hl, Hn.
    + intros Hbound. destruct (IH Hbound) as [IHn IHc].
      split; [done|]. intros i c Hi.
      rewrite perform_old_opid; [by apply IHc | done | done |].
      by eapply list_elem_of_lookup_2.
    + rewrite length_app. cbn [length]. intros Hbound.
      destruct IH as [IHn IHc]; [lia|].
      assert (Int64.wrapU (nextOpID (world p) + 1) = N.of_nat (S (length (live p))))
        as Hfresh.
      { rewrite IHn, Int64Facts.wrapU_small by lia. lia. }
      split; [rewrite Hfresh; lia|]. intros i c Hi.
      apply lookup_snoc_Some in Hi as [[Hlt Hi]|[-> <-]].
      * rewrite perform_old_opid; [by apply IHc | done | done |].
        by eapply list_elem_of_lookup_2.
      * cbn [requestHeaders].
        destruct (headerMap_appended _ _ _ _ Hh) as (_ & -> & _).
        rewrite Hfresh in Hm1.
        destruct Hm1 as [[cid ->]|(a & Ha & ->)].
        -- by rewrite lookup_insert_ne, lookup_insert_eq.
        -- by rewrite lookup_insert_eq.
Qed.

(** C2, amended.  Until the 64-bit counter has run through all its values,
    the [k]-th draw of the process returns the decimal encoding of [k], so it
    encodes a larger value than every draw before it and no value comes
    twice; hence the [_opid] request headers of the first [2^64 - 1] contexts
    made by [NewFContext] and [Clone] are pairwise distinct, as long as
    [_opid] is not written as a plain header. *)
Theorem opids_unique_before_wrap r :
  (∀ k, (1 <= k)%N → (k <= Int64.maxUint64)%N →
        nthDraw (key := key) (val := val) r k = strconv.FormatUint k ∧
        strconv.ParseUint (nthDraw (key := key) (val := val) r k) = (k, None)) ∧
  (∀ i j, (1 <= i)%N → (i < j)%N → (j <= Int64.maxUint64)%N →
          ((strconv.ParseUint (nthDraw (key := key) (val := val) r i)).1
           < (strconv.ParseUint (nthDraw (key := key) (val := val) r j)).1)%N ∧
          nthDraw (key := key) (val := val) r i
          ≠ nthDraw (key := key) (val := val) r j) ∧
  (∀ calls, Forall keepsOpID calls →
            let p := run generateCorrelationID calls (initProcess r) in
            (N.of_nat (length (live p)) <= Int64.maxUint64)%N →
            opIDs p = (λ i, Some (strconv.FormatUint (N.of_nat (S i))))
                        <$> seq 0 (length (live p)) ∧
            NoDup (opIDs p)).
Proof.
  assert (∀ k, (1 <= k)%N → (k <= Int64.maxUint64)%N →
               nthDraw (key := key) (val := val) r k = strconv.FormatUint k ∧
               strconv.ParseUint (nthDraw (key := key) (val := val) r k) = (k, None))
    as Hdraw.
  { intros k H1 Hk. rewrite nthDraw_value by done.
    split; [done|]. by apply strconvFacts.ParseUint_FormatUint. }
  split; [done|]. split.
  - intros i j H1 Hij Hj.
    destruct (Hdraw i) as [Hi1 Hi2]; [done | lia |].
    destruct (Hdraw j) as [Hj1 Hj2]; [lia | done |].
    rewrite Hi2, Hj2. split; [done|]. intros Heq.
    rewrite Heq, Hj2 in Hi2. injection Hi2 as ->. lia.
  - intros calls Hcalls p Hbound.
    destruct (run_opids r calls Hcalls Hbound) as [_ Hids]. fold p in Hids.
    assert (opIDs p = (λ i, Some (strconv.FormatUint (N.of_nat (S i))))
                        <$> seq 0 (length (live p))) as Heq.
    { apply list_eq. intros i. unfold opIDs. rewrite !list_lookup_fmap.
      destruct (live p !! i) as [c|] eqn:Hi.
      - rewrite lookup_seq_lt by (by eapply lookup_lt_Some). simpl.
        f_equal. by apply Hids.
      - rewrite lookup_seq_ge by (by apply lookup_ge_None). done. }
    split; [done|]. rewrite Heq.
    apply NoDup_fmap_2_strong; [|apply NoDup_seq].
    intros x y Hx Hy [= Hxy].
    apply elem_of_seq in Hx, Hy.
    apply strconvFacts.FormatUint_inj in Hxy; lia.
Qed.

End ProcessFacts.

(** ** The claims on a concrete process *)

Example ParseUint_max :
  strconv.ParseUint "18446744073709551615" = (Int64.maxUint64, None).
Proof. vm_compute. reflexivity. Qed.

Example ParseUint_signed : strconv.ParseUint "+5" = (0%N, Some strconv.ErrSyntax).
Proof. vm_compute. reflexivity. Qed.

Example ParseInt_min :
  strconv.ParseInt "-9223372036854775808" = (Int64.minInt64, None).
Proof. vm_compute. reflexivity. Qed.

Example ParseInt_too_large :
  strconv.ParseInt "9223372036854775808" = (Int64.maxInt64, Some strconv.ErrRange).
Proof. vm_compute. reflexivity. Qed.

Example FormatInt_min : strconv.FormatInt Int64.minInt64 = "-9223372036854775808".
Proof. vm_compute. reflexivity. Qed.

Example Demo_opIDs :
  opIDs Demo.process = [Some "1"; Some "2"; Some "3"; Some "4"].
Proof. vm_compute. reflexivity. Qed.

Lemma Demo_ctxA_valid : ctxValid Demo.worldA Demo.ctxA.
Proof. vm_compute. lia. Defined.

(** C1 as the specification words it fails: after the transport has set
    the op id of [A] to 2, the clone of [A] draws 2 from the counter and holds
    the same [_opid] as [A]. *)
Lemma Clone_opid_collision :
  let σ := setRequestOpID Demo.ctxA 2 Demo.worldA in
  let B := (Clone Demo.ctxA σ).1 in
  let σ' := (Clone Demo.ctxA σ).2 in
  ctxValid σ Demo.ctxA ∧
  headerMap σ' (requestHeaders Demo.ctxA) !! opIDHeader = Some "2" ∧
  headerMap σ' (requestHeaders B) !! opIDHeader = Some "2".
Proof. vm_compute. split; [lia | split; reflexivity]. Qed.

Lemma Clone_independent_witness :
  let B := (Clone Demo.ctxA Demo.worldA).1 in
  let σ' := (Clone Demo.ctxA Demo.worldA).2 in
  ctxValid Demo.worldA Demo.ctxA ∧
  CorrelationID B σ' = CorrelationID Demo.ctxA Demo.worldA ∧
  headerMap σ' (requestHeaders B) !! opIDHeader
  ≠ headerMap σ' (requestHeaders Demo.ctxA) !! opIDHeader ∧
  observe (mutate Demo.ctxA (MutAddRequestHeader "x" "1") σ') B = observe σ' B ∧
  observe (mutate B (MutAddEphemeralProperty "k" "v") σ') Demo.ctxA
  = observe σ' Demo.ctxA.
Proof.
  intros B σ'. split; [exact Demo_ctxA_valid|].
  destruct (Clone_independent Demo.ctxA Demo.worldA Demo_ctxA_valid)
    as (H1 & _ & _ & _ & H5 & _ & _ & _ & _ & H10 & H11).
  split; [exact H1|]. split.
  - apply (H5 1%N); [vm_compute; reflexivity | vm_compute; discriminate
                    | vm_compute; reflexivity].
  - split; [apply H10 | apply H11].
Defined.

(** C2 as the specification words it fails: the draw after [2^64] draws
    returns ["1"], which the first draw returned. *)
Lemma opid_reused_after_wrap :
  nthDraw (key := string) (val := string) 0 1 = "1" ∧
  nthDraw (key := string) (val := string) 0 (2 ^ 64 + 1) = "1".
Proof.
  split; [vm_compute; reflexivity|].
  unfold nthDraw, getNextOpID. cbn [fst].
  rewrite drawMany_counter. vm_compute. reflexivity.
Qed.

Lemma opids_unique_before_wrap_witness :
  Forall keepsOpID Demo.calls ∧
  (N.of_nat (length (live Demo.process)) <= Int64.maxUint64)%N ∧
  NoDup (opIDs Demo.process) ∧
  nthDraw (key := string) (val := string) 0 3 = strconv.FormatUint 3 ∧
  nthDraw (key := string) (val := string) 0 2
  ≠ nthDraw (key := string) (val := string) 0 3.
Proof.
  assert (Forall keepsOpID Demo.calls) as Hcalls
    by (repeat constructor; intros Heq; discriminate Heq).
  assert (N.of_nat (length (live Demo.process)) <= Int64.maxUint64)%N as Hbound
    by (vm_compute; discriminate).
  destruct (opids_unique_before_wrap (key := string) (val := string)
              Demo.counterGenerate 0) as (Hdraw & Hmono & Hruns).
  assert (1 <= 2)%N as H12 by (vm_compute; discriminate).
  assert (1 <= 3)%N as H13 by (vm_compute; discriminate).
  assert (2 < 3)%N as H23 by (vm_compute; reflexivity).
  assert (3 <= Int64.maxUint64)%N as H3 by (vm_compute; discriminate).
  split; [exact Hcalls|]. split; [exact Hbound|]. split; [|split].
  - exact (proj2 (Hruns Demo.calls Hcalls Hbound)).
  - exact (proj1 (Hdraw 3%N H13 H3)).
  - exact (proj2 (Hmono 2%N 3%N H12 H23 H3)).
Defined.

(** C3 as the specification words it fails: after [SetTimeout] with minus one
    millisecond the [_timeout] header is ["-1"], and after [AddRequestHeader]
    on [_timeout] it is whatever the caller wrote. *)
Lemma timeout_header_not_kept_non_negative :
  (let p := run Demo.counterGenerate
              [CallNewFContext "abc"; CallMutate 0 (MutSetTimeout (- time.Millisecond))]
              (initProcess (key := string) (val := string) 0) in
   Demo.ctxA ∈ live p ∧
   headerMap (world p) (requestHeaders Demo.ctxA) !! timeoutHeader = Some "-1" ∧
   ¬ timeoutNonNegative (world p) Demo.ctxA) ∧
  (let p := run Demo.counterGenerate
              [CallNewFContext "abc";
               CallMutate 0 (MutAddRequestHeader "_timeout" "soon")]
              (initProcess (key := string) (val := string) 0) in
   Demo.ctxA ∈ live p ∧
   headerMap (world p) (requestHeaders Demo.ctxA) !! timeoutHeader = Some "soon" ∧
   ¬ timeoutNonNegative (world p) Demo.ctxA).
Proof.
  split; cbn zeta.
  - split; [vm_compute; constructor|]. split; [vm_compute; reflexivity|].
    intros (s & z & Hs & Hp & Hz). vm_compute in Hs. injection Hs as <-.
    vm_compute in Hp. injection Hp as <-. lia.
  - split; [vm_compute; constructor|]. split; [vm_compute; reflexivity|].
    intros (s & z & Hs & Hp & Hz). vm_compute in Hs. injection Hs as <-.
    vm_compute in Hp. discriminate.
Qed.

Lemma reserved_headers_invariant_witness :
  Demo.ctxA ∈ live Demo.process ∧
  Forall keepsTimeout Demo.calls ∧
  countKey opIDHeader (headerMap (world Demo.process) (requestHeaders Demo.ctxA)) = 1 ∧
  timeoutNonNegative (world Demo.process) Demo.ctxA.
Proof.
  assert (Demo.ctxA ∈ live Demo.process) as Hin by (vm_compute; constructor).
  assert (Forall keepsTimeout Demo.calls) as Hcalls
    by (repeat constructor;
        first [intros Heq; discriminate Heq | vm_compute; discriminate]).
  destruct (reserved_headers_invariant Demo.counterGenerate 0 Demo.calls Demo.ctxA Hin)
    as (_ & (Hopid & _) & _ & Htimeout).
  split; [exact Hin|]. split; [exact Hcalls|]. split; [exact Hopid|].
  exact (Htimeout Hcalls).
Defined.

Lemma Timeout_fail_soft_witness :
  (let σ := AddRequestHeader Demo.ctxA "_timeout" "soon" Demo.worldA in
   headerMap σ (requestHeaders Demo.ctxA) !! timeoutHeader = Some "soon" ∧
   strconv.decimalInt "soon" = None ∧
   Timeout Demo.ctxA σ = defaultTimeout) ∧
  (let σ := deleteHeader (requestHeaders Demo.ctxA) "_timeout" Demo.worldA in
   headerMap σ (requestHeaders Demo.ctxA) !! timeoutHeader = None ∧
   Timeout Demo.ctxA σ = defaultTimeout).
Proof.
  assert (headerMap (AddRequestHeader Demo.ctxA "_timeout" "soon" Demo.worldA)
                    (requestHeaders Demo.ctxA) !! timeoutHeader = Some "soon")
    as Hsoon by (vm_compute; reflexivity).
  assert (strconv.decimalInt "soon" = None) as Hnone by (vm_compute; reflexivity).
  assert (headerMap (deleteHeader (requestHeaders Demo.ctxA) "_timeout" Demo.worldA)
                    (requestHeaders Demo.ctxA) !! timeoutHeader = None)
    as Hgone by (vm_compute; reflexivity).
  split; cbn zeta.
  - split; [exact Hsoon|]. split; [exact Hnone|].
    apply (Timeout_fail_soft Demo.ctxA
             (AddRequestHeader Demo.ctxA "_timeout" "soon" Demo.worldA)).
    rewrite Hsoon. intros (z & Hz & _). rewrite Hnone in Hz. discriminate Hz.
  - split; [exact Hgone|].
    apply (Timeout_fail_soft Demo.ctxA
             (deleteHeader (requestHeaders Demo.ctxA) "_timeout" Demo.worldA)).
    rewrite Hgone. exact I.
Defined.

(** C5 as the specification words it fails: ["18446744073709551616"] is the
    decimal numeral of a non-negative integer, and [getOpID] returns an error
    on it. *)
Lemma getOpID_rejects_large_numeral :
  let σ := AddRequestHeader Demo.ctxA "_opid" "18446744073709551616" Demo.worldA in
  headerMap σ (requestHeaders Demo.ctxA) !! opIDHeader = Some "18446744073709551616" ∧
  strconv.decimalNat "18446744073709551616" = Some (2 ^ 64)%N ∧
  ¬ (is_Some (getOpID Demo.ctxA σ).2 ↔ opIDAbsentOrNotNumeral σ Demo.ctxA).
Proof.
  cbn zeta. split; [vm_compute; reflexivity|]. split; [vm_compute; reflexivity|].
  intros [Herr _].
  assert (is_Some (getOpID Demo.ctxA
                     (AddRequestHeader Demo.ctxA "_opid" "18446744073709551616"
                        Demo.worldA)).2) as Hsome
    by (vm_compute; eexists; reflexivity).
  apply Herr in Hsome. vm_compute in Hsome. discriminate Hsome.
Qed.

Lemma getOpID_characterised_witness :
  headerMap Demo.worldA (requestHeaders Demo.ctxA) !! opIDHeader = Some "1" ∧
  strconv.decimalNat "1" = Some 1%N ∧
  getOpID Demo.ctxA Demo.worldA = (1%N, None) ∧
  is_Some (getOpID Demo.ctxA (AddRequestHeader Demo.ctxA "_opid" "x1" Demo.worldA)).2.
Proof.
  assert (headerMap Demo.worldA (requestHeaders Demo.ctxA) !! opIDHeader = Some "1")
    as Hh by (vm_compute; reflexivity).
  assert (strconv.decimalNat "1" = Some 1%N) as Hd by (vm_compute; reflexivity).
  assert (1 <= Int64.maxUint64)%N as Hle by (vm_compute; discriminate).
  assert (headerMap (AddRequestHeader Demo.ctxA "_opid" "x1" Demo.worldA)
                    (requestHeaders Demo.ctxA) !! opIDHeader = Some "x1")
    as Hx by (vm_compute; reflexivity).
  assert (strconv.decimalNat "x1" = None) as Hdx by (vm_compute; reflexivity).
  split; [exact Hh|]. split; [exact Hd|]. split.
  - exact (proj2 (getOpID_characterised Demo.ctxA Demo.worldA) "1" 1%N Hh Hd Hle).
  - apply (getOpID_characterised Demo.ctxA
             (AddRequestHeader Demo.ctxA "_opid" "x1" Demo.worldA)).
    rewrite Hx. intros (n & Hn & _). rewrite Hdx in Hn. discriminate Hn.
Defined.

Lemma Timeout_round_trip_witness :
  ctxValid Demo.worldA Demo.ctxA ∧
  Timeout Demo.ctxA (SetTimeout Demo.ctxA (7500 * time.Millisecond) Demo.worldA)
  = (7500 * time.Millisecond)%Z ∧
  Timeout Demo.ctxA Demo.worldA = (5000 * time.Millisecond)%Z.
Proof.
  destruct (Timeout_round_trip (key := string) (val := string) Demo.counterGenerate)
    as [Hset Hnew].
  split; [exact Demo_ctxA_valid|]. split.
  - exact (Hset Demo.ctxA Demo.worldA Demo_ctxA_valid).
  - exact (Hnew "abc" Demo.world0).
Defined.



Lemma accessors_return_copies_witness :
  ctxValid Demo.worldA Demo.ctxA ∧
  (let r := (RequestHeaders Demo.ctxA Demo.worldA).1 in
   let σ' := (RequestHeaders Demo.ctxA Demo.worldA).2 in
   headerMap σ' r = snapRequest (observe Demo.worldA Demo.ctxA) ∧
   observe (deleteHeader r "_opid" σ') Demo.ctxA = observe σ' Demo.ctxA ∧
   headerMap (mutate Demo.ctxA (MutAddRequestHeader "x" "1") σ') r = headerMap σ' r) ∧
  (let r := (EphemeralProperties Demo.ctxA Demo.worldA).1 in
   let σ' := (EphemeralProperties Demo.ctxA Demo.worldA).2 in
   observe (storeProperty r "k" "v" σ') Demo.ctxA = observe σ' Demo.ctxA).
Proof.
  destruct (accessors_return_copies Demo.ctxA Demo.worldA Demo_ctxA_valid)
    as ((Hq1 & _ & _ & Hq4 & Hq5) & _ & (_ & _ & He3 & _)).
  split; [exact Demo_ctxA_valid|]. split.
  - split; [exact Hq1|]. split; [exact (Hq4 "_opid")|].
    exact (Hq5 Demo.ctxA (MutAddRequestHeader "x" "1") Demo_ctxA_valid).
  - exact (He3 "k" "v").
Defined.

(** C10 as the specification words it fails: half a millisecond below zero
    is a negative duration, and [SetTimeout] stores it as ["0"], which is no
    negative numeral; [Timeout] then returns 0, which is no negative
    duration. *)
Lemma SetTimeout_small_negative_stored_as_zero :
  Int64.inInt64 (-500000) ∧ (-500000 < 0)%Z ∧
  headerMap (SetTimeout Demo.ctxA (-500000) Demo.worldA)
            (requestHeaders Demo.ctxA) !! timeoutHeader = Some "0" ∧
  strconv.ParseInt "0" = (0%Z, None) ∧
  Timeout Demo.ctxA (SetTimeout Demo.ctxA (-500000) Demo.worldA) = 0%Z.
Proof.
  split; [vm_compute; split; discriminate|].
  split; [vm_compute; reflexivity|].
  split; [vm_compute; reflexivity|].
  split; vm_compute; reflexivity.
Qed.

Lemma SetTimeout_truncates_witness :
  ctxValid Demo.worldA Demo.ctxA ∧
  Int64.inInt64 (-7500000001) ∧
  headerMap (SetTimeout Demo.ctxA (-7500000001) Demo.worldA)
            (requestHeaders Demo.ctxA) !! timeoutHeader
  = Some (strconv.FormatInt (-7500000001 `quot` time.Millisecond)) ∧
  Timeout Demo.ctxA (SetTimeout Demo.ctxA (-7500000001) Demo.worldA)
  = (time.Millisecond * (-7500000001 `quot` time.Millisecond))%Z ∧
  Timeout Demo.ctxA (SetTimeout Demo.ctxA (-7500000001) Demo.worldA) ≠ defaultTimeout ∧
  (Timeout Demo.ctxA (SetTimeout Demo.ctxA (-7500000001) Demo.worldA) < 0)%Z ∧
  Int64.inInt64 (-500000) ∧
  Timeout Demo.ctxA (SetTimeout Demo.ctxA (-500000) Demo.worldA) = 0%Z.
Proof.
  assert (Int64.inInt64 (-7500000001)) as Hd by (vm_compute; split; discriminate).
  assert (-7500000001 < 0)%Z as Hneg by (vm_compute; reflexivity).
  assert (-7500000001 <= - time.Millisecond)%Z as Hle by (vm_compute; discriminate).
  assert (Int64.inInt64 (-500000)) as Hd' by (vm_compute; split; discriminate).
  assert (- time.Millisecond < -500000 < time.Millisecond)%Z as Hsmall
    by (vm_compute; split; reflexivity).
  destruct (SetTimeout_truncates Demo.ctxA Demo.worldA (-7500000001)
              Demo_ctxA_valid Hd) as (H1 & _ & _ & H4 & _ & _ & H7 & H8 & _).
  destruct (SetTimeout_truncates Demo.ctxA Demo.worldA (-500000)
              Demo_ctxA_valid Hd') as (_ & _ & _ & _ & _ & _ & _ & _ & _ & H10).
  split; [exact Demo_ctxA_valid|]. split; [exact Hd|].
  split; [exact H1|]. split; [exact H4|]. split; [exact (proj2 (H7 Hneg))|].
  split; [exact (proj2 (H8 Hle))|]. split; [exact Hd'|].
  exact (proj2 (H10 Hsmall)).
Defined.

Example SetTimeout_negative_stored :
  strconv.FormatInt (-7500000001 `quot` time.Millisecond) = "-7500" ∧
  strconv.FormatInt (-500000 `quot` time.Millisecond) = "0".
Proof. vm_compute. split; reflexivity. Qed.

(** * Further properties of the package *)

(** ** Reading back what was written *)

Section AccessorFacts.

Context {key : Type} `{Countable key} {val : Type} {Rand : Type}.
Variable generateCorrelationID : Rand → string * Rand.

Implicit Types (σ : World key val Rand) (c : FContextImpl).

Lemma wrapU_bound n : (Int64.wrapU n <= Int64.maxUint64)%N.
Proof.
  unfold Int64.wrapU, Int64.maxUint64.
  assert (n `mod` 2 ^ 64 < 2 ^ 64)%N as Hlt by (by apply N.mod_lt).
  change (2 ^ 64)%N with 18446744073709551616%N in *.
  generalize dependent (n `mod` 18446744073709551616)%N. intros; lia.
Qed.

(** After [AddRequestHeader(name, value)], [RequestHeader(name)] finds
    [value]; every other request header, the response headers (when the
    context keeps them in another map, as every context built by this package
    does) and the ephemeral properties read as before. *)
Theorem AddRequestHeader_read_back c name value σ :
  ctxValid σ c →
  let σ' := AddRequestHeader c name value σ in
  RequestHeader c name σ' = (value, true) ∧
  (∀ other, other ≠ name → RequestHeader c other σ' = RequestHeader c other σ) ∧
  (requestHeaders c ≠ responseHeaders c →
   ∀ n, ResponseHeader c n σ' = ResponseHeader c n σ) ∧
  (∀ k, EphemeralProperty c k σ' = EphemeralProperty c k σ).
Proof.
  intros (Hrq & _ & _) σ'. unfold σ', RequestHeader, ResponseHeader, AddRequestHeader.
  split; [by rewrite headerMap_store_eq, lookup_insert_eq|].
  split; [intros other Hne; by rewrite headerMap_store_eq, lookup_insert_ne|].
  split; [intros Hsep n; by rewrite headerMap_store_ne|]. done.
Qed.

(** After [AddResponseHeader(name, value)], [ResponseHeader(name)] finds
    [value]; every other response header, the request headers (when kept in
    another map) and the ephemeral properties read as before. *)
Theorem AddResponseHeader_read_back c name value σ :
  ctxValid σ c →
  let σ' := AddResponseHeader c name value σ in
  ResponseHeader c name σ' = (value, true) ∧
  (∀ other, other ≠ name → ResponseHeader c other σ' = ResponseHeader c other σ) ∧
  (requestHeaders c ≠ responseHeaders c →
   ∀ n, RequestHeader c n σ' = RequestHeader c n σ) ∧
  (∀ k, EphemeralProperty c k σ' = EphemeralProperty c k σ).
Proof.
  intros (_ & Hrs & _) σ'. unfold σ', RequestHeader, ResponseHeader, AddResponseHeader.
  split; [by rewrite headerMap_store_eq, lookup_insert_eq|].
  split; [intros other Hne; by rewrite headerMap_store_eq, lookup_insert_ne|].
  split; [intros Hsep n; by rewrite headerMap_store_ne|]. done.
Qed.

(** For a key [k] that [==] finds equal to itself, as every value of [key]
    is: after [AddEphemeralProperty(k, v)], [EphemeralProperty(k)] finds [v]
    and every other such key reads as before.  (A floating-point NaN key is
    outside [key]: Go stores it and never finds it again.) *)
Theorem AddEphemeralProperty_read_back c k v σ :
  ctxValid σ c →
  let σ' := AddEphemeralProperty c k v σ in
  EphemeralProperty c k σ' = Some v ∧
  (∀ other, other ≠ k → EphemeralProperty c other σ' = EphemeralProperty c other σ).
Proof.
  intros (_ & _ & Hep) σ'. unfold σ', EphemeralProperty, AddEphemeralProperty.
  split; [by rewrite propertyMap_store_eq, lookup_insert_eq|].
  intros other Hne. by rewrite propertyMap_store_eq, lookup_insert_ne.
Qed.

(** Writing a request header twice keeps the last value, and writes to two
    different names can be made in either order. *)
Theorem AddRequestHeader_composes c σ :
  (∀ name v1 v2,
     AddRequestHeader c name v2 (AddRequestHeader c name v1 σ)
     = AddRequestHeader c name v2 σ) ∧
  (∀ n1 v1 n2 v2, n1 ≠ n2 →
     AddRequestHeader c n1 v1 (AddRequestHeader c n2 v2 σ)
     = AddRequestHeader c n2 v2 (AddRequestHeader c n1 v1 σ)).
Proof.
  unfold AddRequestHeader, storeHeader, withHeaderMaps. simpl. split.
  - intros name v1 v2. f_equal. rewrite list_alter_alter_eq.
    apply list_alter_ext; [|done]. intros m _. simpl. apply insert_insert_eq.
  - intros n1 v1 n2 v2 Hne. f_equal. rewrite !list_alter_alter_eq.
    apply list_alter_ext; [|done]. intros m _. simpl. by apply insert_insert_ne.
Qed.

(** A context fresh from [NewFContext] holds three request headers and
    nothing else: no other request header, no response header and no
    ephemeral property is found.  The contexts that existed keep what they
    held, and the correlation-id generator is not run when a correlation id
    is given. *)
Theorem NewFContext_contents s σ :
  let c := (NewFContext generateCorrelationID s σ).1 in
  let σ' := (NewFContext generateCorrelationID s σ).2 in
  size (snapRequest (observe σ' c)) = 3 ∧
  (∀ name, name ≠ cidHeader → name ≠ opIDHeader → name ≠ timeoutHeader →
           RequestHeader c name σ' = ("", false)) ∧
  RequestHeader c timeoutHeader σ' = ("5000", true) ∧
  (∀ name, ResponseHeader c name σ' = ("", false)) ∧
  (∀ k, EphemeralProperty c k σ' = None) ∧
  requestHeaders c ≠ responseHeaders c ∧
  (∀ c0, ctxValid σ c0 → observe σ' c0 = observe σ c0) ∧
  (s ≠ "" → rand σ' = rand σ).
Proof.
  intros c σ'.
  pose proof (NewFContext_request generateCorrelationID s σ) as Hreq.
  destruct (NewFContext_effect generateCorrelationID s σ) as (Hc & Hh & Hp & _).
  fold c in Hreq, Hc. fold σ' in Hreq, Hh, Hp.
  destruct (headerMap_appended σ σ' _ _ Hh) as (Hold & _ & Hnew2).
  destruct (propertyMap_appended σ σ' _ Hp) as (Hpold & Hpnew).
  split.
  { cbn [observe snapRequest]. rewrite Hreq.
    rewrite !map_size_insert_None, map_size_empty; [done | done | |].
    - by rewrite lookup_insert_ne.
    - by rewrite lookup_insert_ne, lookup_insert_ne. }
  split.
  { intros name H1 H2 H3. unfold RequestHeader. rewrite Hreq.
    by rewrite !lookup_insert_ne, lookup_empty by done. }
  split; [unfold RequestHeader; by rewrite Hreq, lookup_insert_eq|].
  split.
  { intros name. unfold ResponseHeader. rewrite Hc. cbn [responseHeaders].
    by rewrite Hnew2, lookup_empty. }
  split.
  { intros k. unfold EphemeralProperty. rewrite Hc. cbn [ephemeralProperties].
    by rewrite Hpnew, lookup_empty. }
  split; [rewrite Hc; simpl; lia|].
  split.
  { intros c0 (H1 & H2 & H3). unfold observe. by rewrite !Hold, Hpold. }
  intros Hs. unfold σ', NewFContext. by destruct (decide (s = "")).
Qed.

End AccessorFacts.

(** ** Op ids, correlation ids and deadlines *)

Section HelperFacts.

Context {key : Type} `{Countable key} {val : Type} {Rand : Type}.
Variable generateCorrelationID : Rand → string * Rand.

Implicit Types (σ : World key val Rand) (c : FContextImpl).

Lemma wrapS_range z : Int64.inInt64 (Int64.wrapS z).
Proof.
  unfold Int64.inInt64, Int64.wrapS, Int64.minInt64, Int64.maxInt64.
  change (2 ^ 63)%Z with 9223372036854775808%Z.
  change (2 ^ 64)%Z with 18446744073709551616%Z.
  assert (0 <= (z + 9223372036854775808) `mod` 18446744073709551616
          < 18446744073709551616)%Z as Hm by (by apply Z.mod_pos_bound).
  generalize dependent ((z + 9223372036854775808) `mod` 18446744073709551616)%Z.
  intros; lia.
Qed.

Lemma getOpID_same_request c σ σ' :
  headerMap σ' (requestHeaders c) = headerMap σ (requestHeaders c) →
  getOpID c σ' = getOpID c σ.
Proof. intros Heq. unfold getOpID, RequestHeader. by rewrite Heq. Qed.

Lemma getOpID_stored c σ n :
  headerMap σ (requestHeaders c) !! opIDHeader
  = Some (strconv.FormatUint (Int64.wrapU n)) →
  getOpID c σ = (Int64.wrapU n, None).
Proof.
  intros Hh. unfold getOpID, RequestHeader. rewrite Hh.
  by rewrite strconvFacts.ParseUint_FormatUint by apply wrapU_bound.
Qed.

(** [getOpID] reads back the id that [setRequestOpID] wrote, for every
    [uint64]; [setRequestOpID] leaves the other request headers and the global
    counter as they were. *)
Theorem setRequestOpID_getOpID c id σ :
  ctxValid σ c → (id <= Int64.maxUint64)%N →
  let σ' := setRequestOpID c id σ in
  getOpID c σ' = (id, None) ∧
  (∀ name, name ≠ opIDHeader → RequestHeader c name σ' = RequestHeader c name σ) ∧
  nextOpID σ' = nextOpID σ.
Proof.
  intros (Hrq & _ & _) Hid σ'. unfold σ', setRequestOpID, AddRequestHeader.
  split; [|split; [|done]].
  - unfold getOpID, RequestHeader.
    rewrite headerMap_store_eq, lookup_insert_eq by done.
    by rewrite strconvFacts.ParseUint_FormatUint.
  - intros name Hne. unfold RequestHeader.
    by rewrite headerMap_store_eq, lookup_insert_ne.
Qed.

(** [getOpID] never fails on a context just built by [NewFContext] or
    [Clone]: it returns the value the counter took, which is the old value
    plus one modulo [2^64]. *)
Theorem getOpID_of_built_context σ :
  (∀ s, getOpID (NewFContext generateCorrelationID s σ).1
                (NewFContext generateCorrelationID s σ).2
        = (Int64.wrapU (nextOpID σ + 1), None)) ∧
  (∀ a, ctxValid σ a →
        getOpID (Clone a σ).1 (Clone a σ).2 = (Int64.wrapU (nextOpID σ + 1), None)).
Proof.
  split.
  - intros s. apply getOpID_stored. rewrite NewFContext_request.
    by rewrite lookup_insert_ne, lookup_insert_eq.
  - intros a (Hrq & Hrs & _). apply getOpID_stored.
    destruct (Clone_effect a σ Hrq Hrs) as (-> & Hh & _).
    destruct (headerMap_appended σ _ _ _ Hh) as (_ & Hnew & _).
    cbn [requestHeaders]. by rewrite Hnew, lookup_insert_eq.
Qed.

(** [setResponseOpID] writes the response header [_opid] and nothing else:
    on a context that keeps request and response headers in two maps, the
    request op id, the timeout and the correlation id read as before. *)
Theorem setResponseOpID_read_back c id σ :
  ctxValid σ c → requestHeaders c ≠ responseHeaders c →
  let σ' := setResponseOpID c id σ in
  ResponseHeader c opIDHeader σ' = (id, true) ∧
  getOpID c σ' = getOpID c σ ∧
  Timeout c σ' = Timeout c σ ∧
  CorrelationID c σ' = CorrelationID c σ.
Proof.
  intros (_ & Hrs & _) Hsep σ'.
  assert (headerMap σ' (requestHeaders c) = headerMap σ (requestHeaders c)) as Hreq.
  { unfold σ', setResponseOpID, AddResponseHeader. by apply headerMap_store_ne. }
  split.
  - unfold σ', setResponseOpID, AddResponseHeader, ResponseHeader.
    by rewrite headerMap_store_eq, lookup_insert_eq.
  - split; [by apply getOpID_same_request|].
    unfold Timeout, CorrelationID. by rewrite Hreq.
Qed.

(** [CorrelationID] is what the request header [_cid] holds at the moment:
    [AddRequestHeader] on [_cid] changes it, no other call on the context
    does, and it is the empty string when the header is absent. *)
Theorem CorrelationID_follows_cid_header c σ :
  ctxValid σ c →
  (∀ v, CorrelationID c (AddRequestHeader c cidHeader v σ) = v) ∧
  (requestHeaders c ≠ responseHeaders c →
   ∀ m, keepsCid m → CorrelationID c (mutate c m σ) = CorrelationID c σ) ∧
  (∀ id, CorrelationID c (setRequestOpID c id σ) = CorrelationID c σ) ∧
  (headerMap σ (requestHeaders c) !! cidHeader = None → CorrelationID c σ = "").
Proof.
  intros (Hrq & _ & _). unfold CorrelationID. split; [|split; [|split]].
  - intros v. unfold AddRequestHeader.
    by rewrite headerMap_store_eq, lookup_insert_eq.
  - intros Hsep m Hm. destruct m as [name value|name value|d|k v]; simpl.
    + cbn [keepsCid] in Hm. unfold AddRequestHeader.
      rewrite headerMap_store_eq by done. by rewrite lookup_insert_ne by exact Hm.
    + unfold AddResponseHeader. rewrite headerMap_store_ne; [done|].
      intros Heq. by apply Hsep.
    + unfold SetTimeout. rewrite headerMap_store_eq by done.
      by rewrite lookup_insert_ne.
    + done.
  - intros id. unfold setRequestOpID, AddRequestHeader.
    rewrite headerMap_store_eq by done. by rewrite lookup_insert_ne.
  - by intros ->.
Qed.

(** When [_timeout] holds the numeral of an [int64] [z], [Timeout] returns
    [z] milliseconds computed in [int64]: the exact duration when it fits in
    an [int64], and a wrapped value otherwise. *)
Theorem Timeout_of_numeral c σ s z :
  headerMap σ (requestHeaders c) !! timeoutHeader = Some s →
  strconv.decimalInt s = Some z → Int64.inInt64 z →
  Timeout c σ = Int64.wrapS (time.Millisecond * z) ∧
  (Timeout c σ = (time.Millisecond * z)%Z ↔ Int64.inInt64 (time.Millisecond * z)).
Proof.
  intros Hh Hs Hz.
  assert (strconv.ParseInt s = (z, None)) as Hp
    by (by apply strconvFacts.ParseInt_decimal).
  assert (Timeout c σ = Int64.wrapS (time.Millisecond * z)) as HT.
  { unfold Timeout. rewrite Hh. simpl. by rewrite Hp. }
  split; [done|]. rewrite HT. split.
  - intros <-. apply wrapS_range.
  - apply Int64Facts.wrapS_small.
Qed.

(** [ToContext] sets a deadline exactly when the timeout is positive.  After
    [SetTimeout(d)] that is when [d] is at least one millisecond: a shorter
    positive duration is stored as 0 and gives no deadline.  A context with no
    [_timeout] header gets the default deadline. *)
Theorem ToContext_deadline c σ :
  ctxValid σ c →
  (∀ d, Int64.inInt64 d →
        ToContext c (SetTimeout c d σ)
        = if (time.Millisecond <=? d)%Z
          then WithTimeout Background (time.Millisecond * (d `quot` time.Millisecond))
          else Background) ∧
  (headerMap σ (requestHeaders c) !! timeoutHeader = None →
   ToContext c σ = WithTimeout Background defaultTimeout) ∧
  (ToContext c σ = Background ↔ (Timeout c σ <= 0)%Z).
Proof.
  intros (Hrq & _ & _). split; [|split].
  - intros d Hd. unfold ToContext, SetTimeout.
    destruct (quot_Millisecond_range d Hd) as [Hq Hmq].
    rewrite Timeout_stored, Int64Facts.wrapS_small by done.
    clear Hq Hmq Hd. unfold time.Millisecond.
    assert (0 < 1000000)%Z as Hms by lia.
    destruct (1000000 <=? d)%Z eqn:Hle.
    + apply Z.leb_le in Hle.
      assert (0 <= d)%Z as Hpos by lia.
      pose proof (Z.rem_bound_pos d 1000000 Hpos Hms) as Hr.
      pose proof (Z.quot_rem' d 1000000) as Hqr.
      assert ((0 <? 1000000 * (d `quot` 1000000))%Z = true) as ->; [|done].
      apply Z.ltb_lt.
      generalize dependent (Z.rem d 1000000).
      generalize dependent (d `quot` 1000000)%Z. intros; lia.
    + apply Z.leb_gt in Hle.
      assert ((0 <? 1000000 * (d `quot` 1000000))%Z = false) as ->; [|done].
      apply Z.ltb_ge.
      destruct (decide (0 <= d)%Z) as [Hpos|Hneg].
      * rewrite Z.quot_small by lia. lia.
      * assert (d <= 0)%Z as Hnp by lia.
        pose proof (Z.rem_bound_pos_neg d 1000000 Hms Hnp) as Hr.
        pose proof (Z.quot_rem' d 1000000) as Hqr.
        generalize dependent (Z.rem d 1000000).
        generalize dependent (d `quot` 1000000)%Z. intros; lia.
  - intros Hnone. unfold ToContext, Timeout. rewrite Hnone. done.
  - unfold ToContext. destruct (0 <? Timeout c σ)%Z eqn:Hlt.
    + apply Z.ltb_lt in Hlt. split; [done | lia].
    + apply Z.ltb_ge in Hlt. done.
Qed.

(** A clone has the timeout and the deadline of the context it was made
    from; [Clone] draws one op id and does not run the correlation-id
    generator. *)
Theorem Clone_keeps_timeout (A : FContextImpl) σ :
  ctxValid σ A →
  let B := (Clone A σ).1 in
  let σ' := (Clone A σ).2 in
  Timeout B σ' = Timeout A σ ∧
  ToContext B σ' = ToContext A σ ∧
  nextOpID σ' = Int64.wrapU (nextOpID σ + 1) ∧
  rand σ' = rand σ ∧
  ctxValid σ' B ∧ requestHeaders B ≠ responseHeaders B.
Proof.
  intros (Hrq & Hrs & Hep) B σ'.
  destruct (Clone_effect A σ Hrq Hrs) as (HB & Hh & Hp & Hn).
  fold B in HB. fold σ' in Hh, Hp, Hn.
  destruct (headerMap_appended σ σ' _ _ Hh) as (_ & Hnew & _).
  assert (Timeout B σ' = Timeout A σ) as HT.
  { unfold Timeout. rewrite HB. cbn [requestHeaders].
    by rewrite Hnew, lookup_insert_ne. }
  split; [done|]. split; [unfold ToContext; by rewrite HT|].
  split; [done|]. split; [done|].
  rewrite HB. unfold ctxValid. rewrite Hh, Hp, !length_app. simpl.
  split; lia.
Qed.

End HelperFacts.

(** ** [Clone] on an interface value, and the contexts of a process *)

Section CloneAndProcessFacts.

Context {key : Type} `{Countable key} {val : Type} {Rand : Type}.
Variable generateCorrelationID : Rand → string * Rand.

Implicit Types (σ : World key val Rand) (c : FContextImpl).
Implicit Types (p : Process key val Rand) (calls : list (Call key val)) (r : Rand).

Lemma CloneFContext_plain_effect a σ :
  requestHeaders a < length (headerMaps σ) →
  responseHeaders a < length (headerMaps σ) →
  (CloneFContext (asPlainFContext a) σ).1
    = mkFContextImpl (length (headerMaps σ)) (S (length (headerMaps σ)))
                     (length (propertyMaps σ)) ∧
  headerMaps (CloneFContext (asPlainFContext a) σ).2
    = (headerMaps σ ++
       [ <[opIDHeader := strconv.FormatUint (Int64.wrapU (nextOpID σ + 1))]>
           (headerMap σ (requestHeaders a));
         headerMap σ (responseHeaders a) ])%list ∧
  propertyMaps (CloneFContext (asPlainFContext a) σ).2 = (propertyMaps σ ++ [∅])%list ∧
  nextOpID (CloneFContext (asPlainFContext a) σ).2 = Int64.wrapU (nextOpID σ + 1).
Proof.
  intros Hrq Hrs. unfold CloneFContext, asPlainFContext. simpl.
  rewrite !copyEntries_id.
  assert (headerMap (withHeaderMaps
                       (headerMaps σ ++ [headerMap σ (requestHeaders a)])%list σ)
                    (responseHeaders a) = headerMap σ (responseHeaders a)) as ->.
  { unfold headerMap. simpl. by rewrite lookup_app_l. }
  rewrite length_app, <- app_assoc. simpl.
  split; [f_equal; lia|]. split; [|done].
  unfold storeHeader. simpl.
  replace (length (headerMaps σ)) with (length (headerMaps σ) + 0) at 1 by lia.
  rewrite alter_app_r. done.
Qed.

(** The package function [Clone] hands an [*FContextImpl] to its [Clone]
    method.  For a value that shows the methods of [FContext] only, it builds
    the clone itself: the request headers with a new [_opid] and the response
    headers are copied, but the ephemeral properties are not, and the clone
    starts with none.  The clone and the original share no map. *)
Theorem CloneFContext_branches (A : FContextImpl) σ :
  ctxValid σ A →
  CloneFContext (asFContext A) σ = Clone A σ ∧
  let B := (CloneFContext (asPlainFContext A) σ).1 in
  let σ' := (CloneFContext (asPlainFContext A) σ).2 in
  snapRequest (observe σ' B)
  = <[opIDHeader := strconv.FormatUint (Int64.wrapU (nextOpID σ + 1))]>
      (snapRequest (observe σ A)) ∧
  snapResponse (observe σ' B) = snapResponse (observe σ A) ∧
  snapEphemeral (observe σ' B) = ∅ ∧
  observe σ' A = observe σ A ∧
  ctxValid σ' B ∧
  ctxDisjoint A B ∧
  (∀ m, observe (mutate A m σ') B = observe σ' B) ∧
  (∀ m, observe (mutate B m σ') A = observe σ' A).
Proof.
  intros (Hrq & Hrs & Hep). split; [done|]. intros B σ'.
  destruct (CloneFContext_plain_effect A σ Hrq Hrs) as (HB & Hh & Hp & Hn).
  fold B in HB. fold σ' in Hh, Hp, Hn.
  destruct (headerMap_appended σ σ' _ _ Hh) as (Hold & Hnew1 & Hnew2).
  destruct (propertyMap_appended σ σ' _ Hp) as (Hpold & Hpnew).
  assert (ctxDisjoint A B) as Hdis.
  { rewrite HB. unfold ctxDisjoint. simpl. repeat split; lia. }
  destruct Hdis as (D1 & D2 & D3 & D4 & D5).
  split; [rewrite HB; cbn [observe snapRequest requestHeaders]; by rewrite Hnew1|].
  split; [rewrite HB; cbn [observe snapResponse responseHeaders]; by rewrite Hnew2|].
  split; [rewrite HB; cbn [observe snapEphemeral ephemeralProperties]; by rewrite Hpnew|].
  split; [unfold observe; by rewrite !Hold, Hpold|].
  split.
  { rewrite HB. unfold ctxValid. rewrite Hh, Hp, !length_app. simpl. lia. }
  split; [done|]. split.
  - intros m. apply mutate_observe_other; congruence.
  - intros m. apply mutate_observe_other; congruence.
Qed.

(** Of the contexts of a process, each has its three maps in the store,
    keeps request and response headers in two maps, and shares no map with
    another context. *)
Lemma run_disjoint r calls :
  let p := run generateCorrelationID calls (initProcess r) in
  procValid p ∧
  ∀ i j a b, i ≠ j → live p !! i = Some a → live p !! j = Some b → ctxDisjoint a b.
Proof.
  induction calls as [|call calls IH] using rev_ind; cbn zeta.
  - split; [apply (run_reserved generateCorrelationID r [])|]. intros i j a b _ Ha. done.
  - destruct IH as [Hp IH]. rewrite run_snoc.
    split; [by apply perform_valid|].
    set (p := run generateCorrelationID calls (initProcess r)) in *.
    assert (∀ i a, live p !! i = Some a → ctxValid (world p) a) as Hv.
    { intros i a Ha. destruct Hp as [Hvalid _].
      by apply (proj1 (Forall_lookup _ _) Hvalid i a). }
    destruct (perform_shape generateCorrelationID p call Hp)
      as [(Hl & _)|(m1 & m2 & m3 & Hl & _)]; rewrite Hl; [done|].
    intros i j a b Hij Ha Hb.
    apply lookup_snoc_Some in Ha as [[_ Ha]|[-> <-]];
      apply lookup_snoc_Some in Hb as [[_ Hb]|[-> <-]].
    + by apply (IH i j).
    + destruct (Hv i a Ha) as (? & ? & ?).
      unfold ctxDisjoint. simpl. repeat split; lia.
    + destruct (Hv j b Hb) as (? & ? & ?).
      unfold ctxDisjoint. simpl. repeat split; lia.
    + done.
Qed.

(** In every process reached by calls of the public operations, a call that
    changes one context leaves every other context of the process as it
    was. *)
Theorem contexts_of_a_process_isolated r calls i j a b :
  let p := run generateCorrelationID calls (initProcess r) in
  i ≠ j → live p !! i = Some a → live p !! j = Some b →
  ctxValid (world p) a ∧
  requestHeaders a ≠ responseHeaders a ∧
  ctxDisjoint a b ∧
  ∀ m, observe (mutate a m (world p)) b = observe (world p) b.
Proof.
  intros p Hij Ha Hb.
  destruct (run_disjoint r calls) as [[Hvalid Hsep] Hdis]. fold p in Hvalid, Hsep, Hdis.
  split; [by apply (proj1 (Forall_lookup _ _) Hvalid i a)|].
  split; [apply Hsep; by eapply list_elem_of_lookup_2|].
  destruct (Hdis i j a b Hij Ha Hb) as (D1 & D2 & D3 & D4 & D5).
  split; [done|]. intros m. apply mutate_observe_other; congruence.
Qed.

(** As long as [_opid] is not written as a plain header and fewer than
    [2^64] contexts have been made, [getOpID] on the context made [i]-th
    returns [i] and no error. *)
Theorem getOpID_in_process r calls i c :
  Forall keepsOpID calls →
  let p := run generateCorrelationID calls (initProcess r) in
  (N.of_nat (length (live p)) <= Int64.maxUint64)%N →
  live p !! i = Some c →
  getOpID c (world p) = (N.of_nat (S i), None).
Proof.
  intros Hcalls p Hbound Hc.
  destruct (run_opids generateCorrelationID r calls Hcalls Hbound) as [_ Hids].
  fold p in Hids. specialize (Hids i c Hc).
  assert (N.of_nat (S i) <= Int64.maxUint64)%N as Hle.
  { apply lookup_lt_Some in Hc. lia. }
  rewrite <- (Int64Facts.wrapU_small _ Hle) in Hids |- *.
  by apply getOpID_stored.
Qed.

End CloneAndProcessFacts.

(** ** The further properties on the concrete process *)

Lemma Demo_ctxA_separate : requestHeaders Demo.ctxA ≠ responseHeaders Demo.ctxA.
Proof. vm_compute. intros Heq. discriminate Heq. Defined.

Lemma AddRequestHeader_read_back_witness :
  ctxValid Demo.worldA Demo.ctxA ∧
  RequestHeader Demo.ctxA "x" (AddRequestHeader Demo.ctxA "x" "1" Demo.worldA)
  = ("1", true) ∧
  RequestHeader Demo.ctxA "_cid" (AddRequestHeader Demo.ctxA "x" "1" Demo.worldA)
  = RequestHeader Demo.ctxA "_cid" Demo.worldA ∧
  ResponseHeader Demo.ctxA "x" (AddRequestHeader Demo.ctxA "x" "1" Demo.worldA)
  = ResponseHeader Demo.ctxA "x" Demo.worldA.
Proof.
  assert ("_cid" ≠ "x") as Hne by (intros Heq; discriminate Heq).
  destruct (AddRequestHeader_read_back Demo.ctxA "x" "1" Demo.worldA Demo_ctxA_valid)
    as (H1 & H2 & H3 & _).
  split; [exact Demo_ctxA_valid|]. split; [exact H1|].
  split; [exact (H2 "_cid" Hne) | exact (H3 Demo_ctxA_separate "x")].
Defined.

Lemma AddResponseHeader_read_back_witness :
  ctxValid Demo.worldA Demo.ctxA ∧
  ResponseHeader Demo.ctxA "x" (AddResponseHeader Demo.ctxA "x" "1" Demo.worldA)
  = ("1", true) ∧
  RequestHeader Demo.ctxA "x" (AddResponseHeader Demo.ctxA "x" "1" Demo.worldA)
  = RequestHeader Demo.ctxA "x" Demo.worldA.
Proof.
  destruct (AddResponseHeader_read_back Demo.ctxA "x" "1" Demo.worldA Demo_ctxA_valid)
    as (H1 & _ & H3 & _).
  split; [exact Demo_ctxA_valid|]. split; [exact H1|].
  exact (H3 Demo_ctxA_separate "x").
Defined.

Lemma AddEphemeralProperty_read_back_witness :
  ctxValid Demo.worldA Demo.ctxA ∧
  EphemeralProperty Demo.ctxA "span"
    (AddEphemeralProperty Demo.ctxA "span" "s1" Demo.worldA) = Some "s1" ∧
  EphemeralProperty Demo.ctxA "other"
    (AddEphemeralProperty Demo.ctxA "span" "s1" Demo.worldA)
  = EphemeralProperty Demo.ctxA "other" Demo.worldA.
Proof.
  assert ("other" ≠ "span") as Hne by (intros Heq; discriminate Heq).
  destruct (AddEphemeralProperty_read_back Demo.ctxA "span" "s1" Demo.worldA
              Demo_ctxA_valid) as (H1 & H2).
  split; [exact Demo_ctxA_valid|]. split; [exact H1 | exact (H2 "other" Hne)].
Defined.

Lemma AddRequestHeader_composes_witness :
  "x" ≠ "y" ∧
  AddRequestHeader Demo.ctxA "x" "1" (AddRequestHeader Demo.ctxA "y" "2" Demo.worldA)
  = AddRequestHeader Demo.ctxA "y" "2" (AddRequestHeader Demo.ctxA "x" "1" Demo.worldA).
Proof.
  assert ("x" ≠ "y") as Hne by (intros Heq; discriminate Heq).
  split; [exact Hne|].
  exact (proj2 (AddRequestHeader_composes Demo.ctxA Demo.worldA) "x" "1" "y" "2" Hne).
Defined.

Lemma NewFContext_contents_witness :
  "abc" ≠ "" ∧
  RequestHeader (NewFContext Demo.counterGenerate "abc" Demo.world0).1 "x"
                (NewFContext Demo.counterGenerate "abc" Demo.world0).2 = ("", false) ∧
  rand (NewFContext Demo.counterGenerate "abc" Demo.world0).2 = rand Demo.world0.
Proof.
  assert ("abc" ≠ "") as Habc by (intros Heq; discriminate Heq).
  assert ("x" ≠ cidHeader) as H1 by (intros Heq; discriminate Heq).
  assert ("x" ≠ opIDHeader) as H2 by (intros Heq; discriminate Heq).
  assert ("x" ≠ timeoutHeader) as H3 by (intros Heq; discriminate Heq).
  destruct (NewFContext_contents Demo.counterGenerate "abc" Demo.world0)
    as (_ & Hx & _ & _ & _ & _ & _ & Hr).
  split; [exact Habc|]. split; [exact (Hx "x" H1 H2 H3) | exact (Hr Habc)].
Defined.

Lemma setRequestOpID_getOpID_witness :
  ctxValid Demo.worldA Demo.ctxA ∧ (42 <= Int64.maxUint64)%N ∧
  getOpID Demo.ctxA (setRequestOpID Demo.ctxA 42 Demo.worldA) = (42%N, None).
Proof.
  assert (42 <= Int64.maxUint64)%N as Hid by (vm_compute; discriminate).
  destruct (setRequestOpID_getOpID Demo.ctxA 42 Demo.worldA Demo_ctxA_valid Hid)
    as (H1 & _).
  split; [exact Demo_ctxA_valid|]. split; [exact Hid | exact H1].
Defined.

Lemma getOpID_of_built_context_witness :
  ctxValid Demo.worldA Demo.ctxA ∧
  getOpID (Clone Demo.ctxA Demo.worldA).1 (Clone Demo.ctxA Demo.worldA).2
  = (Int64.wrapU (nextOpID Demo.worldA + 1), None).
Proof.
  split; [exact Demo_ctxA_valid|].
  exact (proj2 (getOpID_of_built_context Demo.counterGenerate Demo.worldA)
               Demo.ctxA Demo_ctxA_valid).
Defined.

Lemma setResponseOpID_read_back_witness :
  ctxValid Demo.worldA Demo.ctxA ∧
  requestHeaders Demo.ctxA ≠ responseHeaders Demo.ctxA ∧
  ResponseHeader Demo.ctxA opIDHeader (setResponseOpID Demo.ctxA "7" Demo.worldA)
  = ("7", true) ∧
  getOpID Demo.ctxA (setResponseOpID Demo.ctxA "7" Demo.worldA)
  = getOpID Demo.ctxA Demo.worldA.
Proof.
  destruct (setResponseOpID_read_back Demo.ctxA "7" Demo.worldA
              Demo_ctxA_valid Demo_ctxA_separate) as (H1 & H2 & _).
  split; [exact Demo_ctxA_valid|]. split; [exact Demo_ctxA_separate|].
  split; [exact H1 | exact H2].
Defined.

Lemma CorrelationID_follows_cid_header_witness :
  ctxValid Demo.worldA Demo.ctxA ∧
  CorrelationID Demo.ctxA (AddRequestHeader Demo.ctxA cidHeader "other" Demo.worldA)
  = "other" ∧
  CorrelationID Demo.ctxA (mutate Demo.ctxA (MutSetTimeout 5) Demo.worldA)
  = CorrelationID Demo.ctxA Demo.worldA.
Proof.
  destruct (CorrelationID_follows_cid_header Demo.ctxA Demo.worldA Demo_ctxA_valid)
    as (H1 & H2 & _).
  split; [exact Demo_ctxA_valid|]. split; [exact (H1 "other")|].
  exact (H2 Demo_ctxA_separate (MutSetTimeout 5) I).
Defined.

Lemma Timeout_of_numeral_witness :
  let σ := AddRequestHeader Demo.ctxA "_timeout" "9223372036855" Demo.worldA in
  headerMap σ (requestHeaders Demo.ctxA) !! timeoutHeader = Some "9223372036855" ∧
  strconv.decimalInt "9223372036855" = Some 9223372036855%Z ∧
  Int64.inInt64 9223372036855 ∧
  Timeout Demo.ctxA σ = Int64.wrapS (time.Millisecond * 9223372036855).
Proof.
  cbn zeta.
  assert (headerMap (AddRequestHeader Demo.ctxA "_timeout" "9223372036855" Demo.worldA)
                    (requestHeaders Demo.ctxA) !! timeoutHeader
          = Some "9223372036855") as Hh by (vm_compute; reflexivity).
  assert (strconv.decimalInt "9223372036855" = Some 9223372036855%Z) as Hs
    by (vm_compute; reflexivity).
  assert (Int64.inInt64 9223372036855) as Hz by (vm_compute; split; discriminate).
  split; [exact Hh|]. split; [exact Hs|]. split; [exact Hz|].
  exact (proj1 (Timeout_of_numeral Demo.ctxA _ _ _ Hh Hs Hz)).
Defined.

Example Timeout_wraps_on_large_numeral :
  Timeout Demo.ctxA (AddRequestHeader Demo.ctxA "_timeout" "9223372036855" Demo.worldA)
  = (-9223372036854551616)%Z.
Proof. vm_compute. reflexivity. Qed.

Lemma ToContext_deadline_witness :
  ctxValid Demo.worldA Demo.ctxA ∧
  Int64.inInt64 500000 ∧
  ToContext Demo.ctxA (SetTimeout Demo.ctxA 500000 Demo.worldA) = Background ∧
  Int64.inInt64 (7500 * time.Millisecond) ∧
  ToContext Demo.ctxA (SetTimeout Demo.ctxA (7500 * time.Millisecond) Demo.worldA)
  = WithTimeout Background (7500 * time.Millisecond).
Proof.
  assert (Int64.inInt64 500000) as Hd1 by (vm_compute; split; discriminate).
  assert (Int64.inInt64 (7500 * time.Millisecond)) as Hd2
    by (vm_compute; split; discriminate).
  destruct (ToContext_deadline Demo.ctxA Demo.worldA Demo_ctxA_valid) as (H1 & _).
  split; [exact Demo_ctxA_valid|]. split; [exact Hd1|].
  split; [exact (H1 500000%Z Hd1)|]. split; [exact Hd2|].
  exact (H1 (7500 * time.Millisecond)%Z Hd2).
Defined.

Lemma Clone_keeps_timeout_witness :
  ctxValid Demo.worldA Demo.ctxA ∧
  Timeout (Clone Demo.ctxA Demo.worldA).1 (Clone Demo.ctxA Demo.worldA).2
  = Timeout Demo.ctxA Demo.worldA ∧
  rand (Clone Demo.ctxA Demo.worldA).2 = rand Demo.worldA.
Proof.
  destruct (Clone_keeps_timeout Demo.ctxA Demo.worldA Demo_ctxA_valid)
    as (H1 & _ & _ & H4 & _).
  split; [exact Demo_ctxA_valid|]. split; [exact H1 | exact H4].
Defined.

Lemma CloneFContext_branches_witness :
  let σ := AddEphemeralProperty Demo.ctxA "span" "s1" Demo.worldA in
  ctxValid σ Demo.ctxA ∧
  EphemeralProperty Demo.ctxA "span" σ = Some "s1" ∧
  snapEphemeral (observe (CloneFContext (asPlainFContext Demo.ctxA) σ).2
                         (CloneFContext (asPlainFContext Demo.ctxA) σ).1) = ∅ ∧
  snapResponse (observe (CloneFContext (asPlainFContext Demo.ctxA) σ).2
                        (CloneFContext (asPlainFContext Demo.ctxA) σ).1)
  = snapResponse (observe σ Demo.ctxA).
Proof.
  cbn zeta.
  assert (ctxValid (AddEphemeralProperty Demo.ctxA "span" "s1" Demo.worldA) Demo.ctxA)
    as Hv by (vm_compute; lia).
  destruct (CloneFContext_branches Demo.ctxA _ Hv) as (_ & _ & H3 & H4 & _).
  split; [exact Hv|]. split; [vm_compute; reflexivity|].
  split; [exact H4 | exact H3].
Defined.

Lemma contexts_of_a_process_isolated_witness :
  0 ≠ 1 ∧
  live Demo.process !! 0 = Some (mkFContextImpl 0 1 0) ∧
  live Demo.process !! 1 = Some (mkFContextImpl 2 3 1) ∧
  observe (mutate (mkFContextImpl 0 1 0) (MutAddRequestHeader "x" "2")
                  (world Demo.process)) (mkFContextImpl 2 3 1)
  = observe (world Demo.process) (mkFContextImpl 2 3 1).
Proof.
  assert (0 ≠ 1) as Hij by (intros Heq; discriminate Heq).
  assert (live Demo.process !! 0 = Some (mkFContextImpl 0 1 0)) as Ha
    by (vm_compute; reflexivity).
  assert (live Demo.process !! 1 = Some (mkFContextImpl 2 3 1)) as Hb
    by (vm_compute; reflexivity).
  destruct (contexts_of_a_process_isolated Demo.counterGenerate 0 Demo.calls
              0 1 _ _ Hij Ha Hb) as (_ & _ & _ & Hm).
  split; [exact Hij|]. split; [exact Ha|]. split; [exact Hb|].
  exact (Hm (MutAddRequestHeader "x" "2")).
Defined.

Lemma getOpID_in_process_witness :
  Forall keepsOpID Demo.calls ∧
  (N.of_nat (length (live Demo.process)) <= Int64.maxUint64)%N ∧
  live Demo.process !! 2 = Some (mkFContextImpl 4 5 2) ∧
  getOpID (mkFContextImpl 4 5 2) (world Demo.process) = (N.of_nat 3, None).
Proof.
  assert (Forall keepsOpID Demo.calls) as Hcalls
    by (repeat constructor; intros Heq; discriminate Heq).
  assert (N.of_nat (length (live Demo.process)) <= Int64.maxUint64)%N as Hbound
    by (vm_compute; discriminate).
  assert (live Demo.process !! 2 = Some (mkFContextImpl 4 5 2)) as Hc
    by (vm_compute; reflexivity).
  split; [exact Hcalls|]. split; [exact Hbound|]. split; [exact Hc|].
  exact (getOpID_in_process Demo.counterGenerate 0 Demo.calls 2 _ Hcalls Hbound Hc).
Defined.

(** ** What [SetTimeout] leaves alone *)

Section SetTimeoutFacts.

Context {key : Type} `{Countable key} {val : Type} {Rand : Type}.

Implicit Types (σ : World key val Rand) (c : FContextImpl).

(** [SetTimeout] writes the request header [_timeout] and nothing else: the
    other request headers and the op id read as before, and so do the
    response headers of a context that keeps them in another map.  A second
    [SetTimeout] replaces the first. *)
Theorem SetTimeout_writes_only_timeout c d σ :
  ctxValid σ c →
  let σ' := SetTimeout c d σ in
  (∀ name, name ≠ timeoutHeader → RequestHeader c name σ' = RequestHeader c name σ) ∧
  getOpID c σ' = getOpID c σ ∧
  (requestHeaders c ≠ responseHeaders c →
   ∀ name, ResponseHeader c name σ' = ResponseHeader c name σ) ∧
  nextOpID σ' = nextOpID σ ∧
  (∀ d', SetTimeout c d' σ' = SetTimeout c d' σ).
Proof.
  intros (Hrq & _ & _) σ'. unfold σ', SetTimeout.
  split; [|split; [|split; [|split; [done|]]]].
  - intros name Hne. unfold RequestHeader.
    rewrite headerMap_store_eq by done. by rewrite lookup_insert_ne.
  - unfold getOpID, RequestHeader.
    rewrite headerMap_store_eq by done. by rewrite lookup_insert_ne.
  - intros Hsep name. unfold ResponseHeader. by rewrite headerMap_store_ne.
  - intros d'. unfold storeHeader, withHeaderMaps. simpl. f_equal.
    rewrite list_alter_alter_eq.
    apply list_alter_ext; [|done]. intros m _. simpl. apply insert_insert_eq.
Qed.

End SetTimeoutFacts.

Lemma SetTimeout_writes_only_timeout_witness :
  ctxValid Demo.worldA Demo.ctxA ∧
  getOpID Demo.ctxA (SetTimeout Demo.ctxA 42 Demo.worldA)
  = getOpID Demo.ctxA Demo.worldA ∧
  RequestHeader Demo.ctxA "_cid" (SetTimeout Demo.ctxA 42 Demo.worldA)
  = RequestHeader Demo.ctxA "_cid" Demo.worldA.
Proof.
  assert ("_cid" ≠ timeoutHeader) as Hne by (intros Heq; discriminate Heq).
  destruct (SetTimeout_writes_only_timeout Demo.ctxA 42 Demo.worldA Demo_ctxA_valid)
    as (H1 & H2 & _).
  split; [exact Demo_ctxA_valid|]. split; [exact H2 | exact (H1 "_cid" Hne)].
Defined.
